(** * Rally racing: the race transaction of [app.py]

    A shallow embedding of [start_race] and a verification of the
    properties its specification states: eligibility, fee collection,
    finishing times, "min" ranking, the prize split and the transaction
    boundary.

    Numbers.  The warehouse columns (budget, speed, pit-stop parameters,
    times, prizes) and the Python arguments [distance] and [fee] are
    modelled as exact rationals [Q]; equations between computed amounts are
    stated with [==].  The float literals of the prize split stand for
    their decimal values.

    Storage.  TEAMS is keyed by TEAM_ID and modelled as a finite map;
    CARS, RACE_EVENTS, RACE_ENTRIES and RACE_RESULTS are lists of rows.
    A connection is opened as [app.py] opens it, without [autocommit]
    and without a statement that begins a transaction: every statement is
    committed as it runs, and [rollback] has nothing left to undo.
    Statements themselves always succeed in the model, so the
    [try/except] around each budget update never fires.

    Domain.  Speeds and pit-stop intervals are divisors.  The data model
    has them positive; on a zero divisor the infinities and NaN of the
    code's number type have no counterpart in [Q], so every property
    that concludes that a race returns an id assumes positive speeds and
    intervals or the returned id itself. *)

From Stdlib Require Import QArith Qround Lqa.
From stdpp Require Import gmap list sorting strings.

Open Scope Q_scope.

#[local] Set Warnings "-clear-no-such-hyp".

(** ** Decidable comparisons on [Q] *)

#[global] Instance Qeq_rel_dec : RelDecision Qeq := Qeq_dec.

#[global] Instance Qle_rel_dec : RelDecision Qle.
Proof.
  intros x y. destruct (Qlt_le_dec y x) as [H|H]; [right|left]; trivial.
  apply Qlt_not_le, H.
Defined.

#[global] Instance Qlt_rel_dec : RelDecision Qlt.
Proof.
  intros x y. destruct (Qlt_le_dec x y) as [H|H]; [left|right]; trivial.
  apply Qle_not_lt, H.
Defined.

#[global] Instance Qle_total : Total Qle.
Proof. intros x y. destruct (Qlt_le_dec x y); [left|right]; lra. Qed.

#[global] Instance Qle_trans : Transitive Qle.
Proof. intros x y z ??. lra. Qed.

(** ** Tables *)

(** A row of TEAMS; the key TEAM_ID is the key of the map. *)
Module Team.
Record t := mk { TEAM_NAME : string; BUDGET : Q }.
End Team.

Module Car.
Record t := mk {
  CAR_ID : Z;
  CAR_NAME : string;
  SPEED : Q;
  PIT_STOP_INTERVAL : Q;
  PIT_STOP_DURATION : Q;
  TEAM_ID : Z
}.
End Car.

Module RaceEvent.
Record t := mk { RACE_ID : Z; DISTANCE : Q; STARTED_AT : Z }.
End RaceEvent.

Module Entry.
Record t := mk {
  RACE_ID : Z;
  TEAM_ID : Z;
  CAR_ID : Z;
  TIME_TAKEN : Q;
  FEE : Q
}.
End Entry.

Module Result.
Record t := mk {
  RACE_ID : Z;
  TEAM_ID : Z;
  CAR_ID : Z;
  POSITION : Z;
  PRIZE_MONEY : Q
}.
End Result.

Record DB := mkDB {
  TEAMS : gmap Z Team.t;
  CARS : list Car.t;
  RACE_EVENTS : list RaceEvent.t;
  RACE_ENTRIES : list Entry.t;
  RACE_RESULTS : list Result.t
}.

(** A row of the data frame [df]: the columns of the eligibility query. *)
Module Row.
Record t := mk {
  CAR_ID : Z;
  CAR_NAME : string;
  SPEED : Q;
  PIT_STOP_INTERVAL : Q;
  PIT_STOP_DURATION : Q;
  TEAM_ID : Z;
  TEAM_NAME : string;
  BUDGET : Q
}.
End Row.

(** ** The connection *)

(** [committed] is what the warehouse holds, [working] what the session
    sees.  [get_snowflake_connection] passes no [autocommit] argument and
    no statement of [app.py] begins a transaction, so a session runs
    with the connector's default, [autocommit] on. *)
Record Conn := mkConn { autocommit : bool; committed : DB; working : DB }.

Definition connect (db : DB) : Conn := mkConn true db db.

(** The connection once its statements have brought the tables to [w]:
    with [autocommit] on they are committed as they run. *)
Definition executed (c : Conn) (w : DB) : Conn :=
  mkConn (autocommit c) (if autocommit c then w else committed c) w.

Definition commit (c : Conn) : Conn :=
  mkConn (autocommit c) (working c) (working c).
Definition rollback (c : Conn) : Conn :=
  mkConn (autocommit c) (committed c) (committed c).
Definition close (c : Conn) : DB := committed c.

(** Exceptions the body of [start_race] can raise. *)
Inductive exn :=
| NoTeamsWithEnoughBudget   (* [raise Exception("No teams with enough budget ...")] *)
| FetchoneIsNone.           (* [cursor.fetchone()[0]] on an empty result *)

(** Statements run against the working copy and may raise. *)
Definition M (A : Type) : Type := DB → (exn + A) * DB.

#[global] Instance M_ret : MRet M := λ A a w, (inr a, w).
#[global] Instance M_bind : MBind M := λ A B k m w,
  match m w with
  | (inr a, w') => k a w'
  | (inl e, w') => (inl e, w')
  end.

Definition raise {A} (e : exn) : M A := λ w, (inl e, w).
Definition execute (stmt : DB → DB) : M unit := λ w, (inr tt, stmt w).
Definition query {A} (q : DB → A) : M A := λ w, (inr (q w), w).

(** [for x in xs: body x] *)
Fixpoint for_each {A} (xs : list A) (body : A → M unit) : M unit :=
  match xs with
  | [] => mret tt
  | x :: xs => body x ;; for_each xs body
  end.

(** ** Step 1: the race event *)

(** [INSERT INTO RACE_EVENTS (DISTANCE) VALUES (distance)].  The schema's
    defaults fill RACE_ID and STARTED_AT; they are the parameters
    [new_id] and [now]. *)
Definition insert_race_event (new_id now : Z) (distance : Q) (w : DB) : DB :=
  mkDB (TEAMS w) (CARS w)
       (RACE_EVENTS w ++ [RaceEvent.mk new_id distance now])
       (RACE_ENTRIES w) (RACE_RESULTS w).

(** [SELECT RACE_ID FROM RACE_EVENTS ORDER BY STARTED_AT DESC LIMIT 1] *)
Definition latest_event (evs : list RaceEvent.t) : option RaceEvent.t :=
  foldr (λ e acc,
           match acc with
           | None => Some e
           | Some m =>
               if (RaceEvent.STARTED_AT m <? RaceEvent.STARTED_AT e)%Z
               then Some e else Some m
           end) None evs.

Definition select_latest_race_id (w : DB) : option Z :=
  RaceEvent.RACE_ID <$> latest_event (RACE_EVENTS w).

(** ** Step 2: cars whose team can afford the fee *)

(** [SELECT ... FROM CARS c JOIN TEAMS t ON c.TEAM_ID = t.TEAM_ID
     WHERE t.BUDGET >= fee] *)
Definition join_row (fee : Q) (teams : gmap Z Team.t) (c : Car.t) : option Row.t :=
  match teams !! Car.TEAM_ID c with
  | Some t =>
      if decide (fee <= Team.BUDGET t)
      then Some (Row.mk (Car.CAR_ID c) (Car.CAR_NAME c) (Car.SPEED c)
                        (Car.PIT_STOP_INTERVAL c) (Car.PIT_STOP_DURATION c)
                        (Car.TEAM_ID c) (Team.TEAM_NAME t) (Team.BUDGET t))
      else None
  | None => None
  end.

Definition select_eligible (fee : Q) (w : DB) : list Row.t :=
  omap (join_row fee (TEAMS w)) (CARS w).

(** ** Step 3: the fee, once per distinct team *)

(** [Series.unique()]: the distinct values in order of first appearance. *)
Fixpoint unique_from (seen : gset Z) (l : list Z) : list Z :=
  match l with
  | [] => []
  | x :: l =>
      if decide (x ∈ seen) then unique_from seen l
      else x :: unique_from ({[x]} ∪ seen) l
  end.

Definition unique (l : list Z) : list Z := unique_from ∅ l.

Definition add_to_budget (delta : Q) (t : Team.t) : Team.t :=
  Team.mk (Team.TEAM_NAME t) (Team.BUDGET t + delta).

Definition sub_from_budget (delta : Q) (t : Team.t) : Team.t :=
  Team.mk (Team.TEAM_NAME t) (Team.BUDGET t - delta).

Definition set_teams (teams : gmap Z Team.t) (w : DB) : DB :=
  mkDB teams (CARS w) (RACE_EVENTS w) (RACE_ENTRIES w) (RACE_RESULTS w).

(** [UPDATE TEAMS SET BUDGET = BUDGET - fee WHERE TEAM_ID = team_id] *)
Definition update_deduct (fee : Q) (team_id : Z) (w : DB) : DB :=
  set_teams (alter (sub_from_budget fee) team_id (TEAMS w)) w.

(** [UPDATE TEAMS SET BUDGET = BUDGET + prize WHERE TEAM_ID = team_id] *)
Definition update_credit (prize : Q) (team_id : Z) (w : DB) : DB :=
  set_teams (alter (add_to_budget prize) team_id (TEAMS w)) w.

Definition collect_fees (fee : Q) (df : list Row.t) : M unit :=
  for_each (unique (Row.TEAM_ID <$> df))
           (λ team_id, execute (update_deduct fee team_id)).

(** ** Step 4: race entries *)

(** [distance // x]: floor division, for a divisor that is not zero. *)
Definition floordiv (a b : Q) : Q := inject_Z (Qfloor (a / b)).

(** [distance / SPEED * 3600 + distance // PIT_STOP_INTERVAL * PIT_STOP_DURATION],
    for a speed and an interval that are not zero. *)
Definition time_taken (distance : Q) (r : Row.t) : Q :=
  distance / Row.SPEED r * 3600
  + floordiv distance (Row.PIT_STOP_INTERVAL r) * Row.PIT_STOP_DURATION r.

Definition entries_df (race_id : Z) (distance fee : Q) (df : list Row.t)
  : list Entry.t :=
  (λ r, Entry.mk race_id (Row.TEAM_ID r) (Row.CAR_ID r)
                 (time_taken distance r) fee) <$> df.

(** [write_pandas(conn, entries_df, 'RACE_ENTRIES')] *)
Definition write_entries (es : list Entry.t) (w : DB) : DB :=
  mkDB (TEAMS w) (CARS w) (RACE_EVENTS w) (RACE_ENTRIES w ++ es) (RACE_RESULTS w).

(** ** Step 5: positions and prizes *)

(** Position of the first value equal to [x] in [l], from 0. *)
Fixpoint first_index (x : Q) (l : list Q) : nat :=
  match l with
  | [] => 0
  | y :: l => if decide (y == x) then 0 else S (first_index x l)
  end.

(** [Series.rank(method='min').astype(int)]: the values are sorted
    ascending and every value gets the 1-based place of the first member
    of its group of equal values. *)
Definition rank_min (xs : list Q) : list Z :=
  let sorted := merge_sort Qle xs in
  (λ x, Z.of_nat (S (first_index x sorted))) <$> xs.

(** [Series.sum()] *)
Definition Qsum (xs : list Q) : Q := foldr Qplus 0 xs.

(** [prize_split = {1: 0.5, 2: 0.3, 3: 0.2}] *)
Definition prize_split : gmap Z Q :=
  <[1%Z := 0.5]> (<[2%Z := 0.3]> (<[3%Z := 0.2]> ∅)).

(** [lambda pos: total_pot * prize_split.get(pos, 0)] *)
Definition prize (total_pot : Q) (pos : Z) : Q :=
  total_pot * default 0 (prize_split !! pos).

Definition total_pot (es : list Entry.t) : Q := Qsum (Entry.FEE <$> es).

Definition results_df (es : list Entry.t) : list Result.t :=
  let positions := rank_min (Entry.TIME_TAKEN <$> es) in
  let pot := total_pot es in
  zip_with (λ e pos, Result.mk (Entry.RACE_ID e) (Entry.TEAM_ID e)
                               (Entry.CAR_ID e) pos (prize pot pos))
           es positions.

(** [write_pandas(conn, results_df, 'RACE_RESULTS')] *)
Definition write_results (rs : list Result.t) (w : DB) : DB :=
  mkDB (TEAMS w) (CARS w) (RACE_EVENTS w) (RACE_ENTRIES w) (RACE_RESULTS w ++ rs).

(** ** Step 6: prizes credited to the teams *)

Definition credit_prizes (rs : list Result.t) : M unit :=
  for_each rs (λ row,
    if decide (0 < Result.PRIZE_MONEY row)
    then execute (update_credit (Result.PRIZE_MONEY row) (Result.TEAM_ID row))
    else mret tt).

(** ** [start_race] *)

(** The body of the [try] block up to, but excluding, [conn.commit()]. *)
Definition start_race_body (new_id now : Z) (distance fee : Q) : M Z :=
  execute (insert_race_event new_id now distance) ;;
  fetched ← query select_latest_race_id ;
  race_id ← match fetched with
            | Some id => mret id
            | None => raise FetchoneIsNone
            end ;
  df ← query (select_eligible fee) ;
  match df with
  | [] => raise NoTeamsWithEnoughBudget
  | _ :: _ =>
      collect_fees fee df ;;
      let entries := entries_df race_id distance fee df in
      execute (write_entries entries) ;;
      let results := results_df entries in
      execute (write_results results) ;;
      credit_prizes results ;;
      mret race_id
  end.

(** [start_race(distance, fee)] on a fresh connection to [db]: the race id
    (or [None]) and the tables left behind once the connection is
    closed. *)
Definition start_race (new_id now : Z) (distance fee : Q) (db : DB)
  : option Z * DB :=
  let conn := connect db in
  match start_race_body new_id now distance fee (working conn) with
  | (inr race_id, w) => (Some race_id, close (commit (executed conn w)))
  | (inl _, w) => (None, close (rollback (executed conn w)))
  end.

(** ** The states the loops leave behind, as folds *)

Definition fees_state (fee : Q) (df : list Row.t) (w : DB) : DB :=
  foldl (λ w team_id, update_deduct fee team_id w) w
        (unique (Row.TEAM_ID <$> df)).

Definition credit_row (w : DB) (row : Result.t) : DB :=
  if decide (0 < Result.PRIZE_MONEY row)
  then update_credit (Result.PRIZE_MONEY row) (Result.TEAM_ID row) w
  else w.

Definition credit_state (rs : list Result.t) (w : DB) : DB :=
  foldl credit_row w rs.

(** The same loops seen from the TEAMS table alone. *)
Definition deduct_teams (fee : Q) (ids : list Z) (teams : gmap Z Team.t)
  : gmap Z Team.t :=
  foldl (λ m team_id, alter (sub_from_budget fee) team_id m) teams ids.

Definition credit_teams (rs : list Result.t) (teams : gmap Z Team.t)
  : gmap Z Team.t :=
  foldl (λ m row,
           if decide (0 < Result.PRIZE_MONEY row)
           then alter (add_to_budget (Result.PRIZE_MONEY row))
                      (Result.TEAM_ID row) m
           else m) teams rs.

(** The race event the invocation inserts, and the tables a committed
    race leaves behind. *)
Definition new_event (new_id now : Z) (distance : Q) : RaceEvent.t :=
  RaceEvent.mk new_id distance now.

Definition committed_state (new_id now race_id : Z) (distance fee : Q) (db : DB)
  : DB :=
  let df := select_eligible fee db in
  let es := entries_df race_id distance fee df in
  let rs := results_df es in
  mkDB (credit_teams rs
          (deduct_teams fee (unique (Row.TEAM_ID <$> df)) (TEAMS db)))
       (CARS db)
       (RACE_EVENTS db ++ [new_event new_id now distance])
       (RACE_ENTRIES db ++ es)
       (RACE_RESULTS db ++ rs).

(** ** Vocabulary of the specification *)

(** Team [tid] owns a car and can afford the fee. *)
Definition owns_eligible_car (fee : Q) (db : DB) (tid : Z) : Prop :=
  ∃ c t, c ∈ CARS db ∧ Car.TEAM_ID c = tid ∧
         TEAMS db !! tid = Some t ∧ fee <= Team.BUDGET t.

(** Car [c] is eligible: its owning team's budget covers the fee. *)
Definition eligible (fee : Q) (db : DB) (c : Car.t) : Prop :=
  ∃ t, TEAMS db !! Car.TEAM_ID c = Some t ∧ fee <= Team.BUDGET t.

(** Number of values of [xs] strictly smaller than [x]. *)
Definition count_lt (x : Q) (xs : list Q) : nat :=
  length (filter (λ y, y < x) xs).

(** Number of result rows at position [p]. *)
Definition count_position (p : Z) (rs : list Result.t) : nat :=
  length (filter (λ r, Result.POSITION r = p) rs).

#[global] Instance eligible_dec fee db c : Decision (eligible fee db c).
Proof.
  unfold eligible. destruct (TEAMS db !! Car.TEAM_ID c) as [t|].
  - destruct (decide (fee <= Team.BUDGET t)) as [H|H].
    + left. by exists t.
    + right. intros (t' & [= <-] & H'). by apply H.
  - right. by intros (t' & [=] & _).
Defined.

(** The eligible cars of a team, and the entries a team has in a race. *)
Definition eligible_cars_of (fee : Q) (db : DB) (tid : Z) : list Car.t :=
  filter (λ c, Car.TEAM_ID c = tid) (filter (eligible fee db) (CARS db)).

Definition entries_of (tid : Z) (es : list Entry.t) : list Entry.t :=
  filter (λ e, Entry.TEAM_ID e = tid) es.

(** A count as an amount. *)
Definition Qnat (n : nat) : Q := inject_Z (Z.of_nat n).

(** The rows of [results_df], entry by entry. *)
Definition result_of (es : list Entry.t) (e : Entry.t) : Result.t :=
  let pos := Z.of_nat (S (count_lt (Entry.TIME_TAKEN e)
                                   (Entry.TIME_TAKEN <$> es))) in
  Result.mk (Entry.RACE_ID e) (Entry.TEAM_ID e) (Entry.CAR_ID e)
            pos (prize (total_pot es) pos).

(** The fraction of the pot paid to the rows at positions 1, 2 and 3. *)
Definition podium_share (rs : list Result.t) : Q :=
  0.5 * Qnat (count_position 1 rs) + 0.3 * Qnat (count_position 2 rs)
  + 0.2 * Qnat (count_position 3 rs).

(** The rows one invocation appended to a table. *)
Definition appended {A} (before after new : list A) : Prop :=
  after = before ++ new.

(** ** Sample races *)

(** The example of the specification: team 1 (budget 500) enters car 1,
    team 2 (budget 1000) enters car 2. *)
Definition two_teams : DB :=
  mkDB (<[1%Z := Team.mk "A" 500]> (<[2%Z := Team.mk "B" 1000]> ∅))
       [Car.mk 1 "A1" 200 300 30 1; Car.mk 2 "B1" 250 500 20 2]
       [] [] [].

(** Three teams with one car each; cars 2 and 3 are equally fast. *)
Definition tied_runners_up : DB :=
  mkDB (<[1%Z := Team.mk "A" 1000]>
          (<[2%Z := Team.mk "B" 1000]> (<[3%Z := Team.mk "C" 1000]> ∅)))
       [Car.mk 1 "A1" 250 500 20 1; Car.mk 2 "B1" 200 300 30 2;
        Car.mk 3 "C1" 200 300 30 3]
       [] [] [].

(** One team entering two cars, and a team that cannot pay. *)
Definition two_cars_one_team : DB :=
  mkDB (<[1%Z := Team.mk "A" 1000]> (<[2%Z := Team.mk "B" 50]> ∅))
       [Car.mk 1 "A1" 250 500 20 1; Car.mk 2 "A2" 200 300 30 1;
        Car.mk 3 "B1" 300 300 30 2]
       [] [] [].

(** Two teams whose cars are equally fast. *)
Definition dead_heat : DB :=
  mkDB (<[1%Z := Team.mk "A" 1000]> (<[2%Z := Team.mk "B" 1000]> ∅))
       [Car.mk 1 "A1" 200 300 30 1; Car.mk 2 "B1" 200 300 30 2]
       [] [] [].

(** * The rest of [app.py] *)

(** ** Invariants of the tables *)

(** What the prize loop adds to the budget of team [tid]: the prizes of
    its result rows that are greater than zero. *)
Definition credited (tid : Z) (rs : list Result.t) : Q :=
  Qsum (Result.PRIZE_MONEY
          <$> filter (λ r, Result.TEAM_ID r = tid ∧ 0 < Result.PRIZE_MONEY r)
                     rs).


Definition budgets_nonneg (db : DB) : Prop :=
  ∀ tid t, TEAMS db !! tid = Some t → 0 <= Team.BUDGET t.

Definition team_names_unique (db : DB) : Prop :=
  ∀ k1 k2 t1 t2,
    TEAMS db !! k1 = Some t1 → TEAMS db !! k2 = Some t2 →
    Team.TEAM_NAME t1 = Team.TEAM_NAME t2 → k1 = k2.

Definition car_names_unique (db : DB) : Prop :=
  NoDup (Car.CAR_NAME <$> CARS db).

Definition cars_have_teams (db : DB) : Prop :=
  ∀ c, c ∈ CARS db → is_Some (TEAMS db !! Car.TEAM_ID c).

Definition team_name_taken (team_name : string) (db : DB) : Prop :=
  ∃ k t, TEAMS db !! k = Some t ∧ Team.TEAM_NAME t = team_name.

Definition car_name_taken (car_name : string) (db : DB) : Prop :=
  ∃ c, c ∈ CARS db ∧ Car.CAR_NAME c = car_name.

(** ** Sessions: statements, commit and rollback on one connection *)

Definition Session (A : Type) : Type := Conn → (exn + A) * Conn.

#[global] Instance Session_ret : MRet Session := λ A a c, (inr a, c).
#[global] Instance Session_bind : MBind Session := λ A B k m c,
  match m c with
  | (inr a, c') => k a c'
  | (inl e, c') => (inl e, c')
  end.

Definition cursor_execute (stmt : DB → DB) : Session unit :=
  λ c, (inr tt, executed c (stmt (working c))).
Definition cursor_fetch {A} (q : DB → A) : Session A :=
  λ c, (inr (q (working c)), c).
Definition conn_commit : Session unit := λ c, (inr tt, commit c).

(** The messages [add_team] and [add_car] return, one constructor for
    each f-string. *)
Inductive message :=
| TeamAlreadyExists (team_name : string)
| TeamCreated (team_name : string) (budget : Q)
| CouldNotAddTeam (e : exn)
| NoTeamFound (team_name : string)
| CarAlreadyExists (car_name : string)
| CarAdded (car_name team_name : string)
| CouldNotAddCar (e : exn).

(** ** [add_team] *)

(** [SELECT COUNT( * ) FROM TEAMS WHERE TEAM_NAME = team_name] *)
Definition count_teams_named (team_name : string) (w : DB) : nat :=
  size (filter (λ kt : Z * Team.t, Team.TEAM_NAME kt.2 = team_name) (TEAMS w)).

(** [INSERT INTO TEAMS (TEAM_NAME, BUDGET) VALUES (team_name, budget)];
    the key the schema generates for the row is the parameter
    [new_team_id]. *)
Definition insert_team (new_team_id : Z) (team_name : string) (budget : Q)
    (w : DB) : DB :=
  set_teams (<[new_team_id := Team.mk team_name budget]> (TEAMS w)) w.

Definition add_team_session (new_team_id : Z) (team_name : string) (budget : Q)
  : Session (bool * message) :=
  n ← cursor_fetch (count_teams_named team_name);
  if decide (0 < n)%nat
  then mret (false, TeamAlreadyExists team_name)
  else
    cursor_execute (insert_team new_team_id team_name budget) ;;
    conn_commit ;;
    mret (true, TeamCreated team_name budget).

Definition add_team (new_team_id : Z) (team_name : string) (budget : Q)
    (db : DB) : (bool * message) * DB :=
  match add_team_session new_team_id team_name budget (connect db) with
  | (inr r, c) => (r, close c)
  | (inl e, c) => ((false, CouldNotAddTeam e), close (rollback c))
  end.

(** ** [add_car] *)

(** [SELECT TEAM_ID FROM TEAMS WHERE TEAM_NAME = team_name] and
    [fetchone()]: the key of the first matching row, if any. *)
Definition select_team_id (team_name : string) (w : DB) : option Z :=
  fst <$> head (map_to_list
                  (filter (λ kt : Z * Team.t, Team.TEAM_NAME kt.2 = team_name)
                          (TEAMS w))).

(** [SELECT COUNT( * ) FROM CARS WHERE CAR_NAME = car_name] *)
Definition count_cars_named (car_name : string) (w : DB) : nat :=
  length (filter (λ c, Car.CAR_NAME c = car_name) (CARS w)).

(** [INSERT INTO CARS (CAR_NAME, SPEED, PIT_STOP_INTERVAL,
    PIT_STOP_DURATION, TEAM_ID) VALUES (...)]; [new_car_id] is the key
    the schema generates. *)
Definition insert_car (new_car_id : Z) (car_name : string)
    (speed pit_stop_interval pit_stop_duration : Q) (team_id : Z) (w : DB)
  : DB :=
  mkDB (TEAMS w)
       (CARS w ++ [Car.mk new_car_id car_name speed pit_stop_interval
                          pit_stop_duration team_id])
       (RACE_EVENTS w) (RACE_ENTRIES w) (RACE_RESULTS w).

Definition add_car_session (new_car_id : Z) (car_name : string)
    (speed pit_stop_interval pit_stop_duration : Q) (team_name : string)
  : Session (bool * message) :=
  result ← cursor_fetch (select_team_id team_name);
  match result with
  | None => mret (false, NoTeamFound team_name)
  | Some team_id =>
      n ← cursor_fetch (count_cars_named car_name);
      if decide (0 < n)%nat
      then mret (false, CarAlreadyExists car_name)
      else
        cursor_execute (insert_car new_car_id car_name speed pit_stop_interval
                                   pit_stop_duration team_id) ;;
        conn_commit ;;
        mret (true, CarAdded car_name team_name)
  end.

Definition add_car (new_car_id : Z) (car_name : string)
    (speed pit_stop_interval pit_stop_duration : Q) (team_name : string)
    (db : DB) : (bool * message) * DB :=
  match add_car_session new_car_id car_name speed pit_stop_interval
                        pit_stop_duration team_name (connect db) with
  | (inr r, c) => (r, close c)
  | (inl e, c) => ((false, CouldNotAddCar e), close (rollback c))
  end.

(** ** [is_snowflake_setup_needed] *)

(** A row of INFORMATION_SCHEMA.TABLES. *)
Module Table.
Record t := mk { TABLE_SCHEMA : string; TABLE_NAME : string }.
End Table.

#[global] Instance Table_eq_dec : EqDecision Table.t.
Proof. solve_decision. Defined.

Definition required_tables : list string :=
  ["TEAMS"; "CARS"; "RACE_EVENTS"; "RACE_ENTRIES"; "RACE_RESULTS"]%string.

(** [SELECT COUNT( * ) FROM INFORMATION_SCHEMA.TABLES
     WHERE TABLE_SCHEMA = 'RALLY' AND TABLE_NAME IN (...)] *)
Definition count_required (tables : list Table.t) : nat :=
  length (filter (λ r, Table.TABLE_SCHEMA r = "RALLY"%string
                       ∧ Table.TABLE_NAME r ∈ required_tables) tables).

(** The argument is the catalogue the query reads, or [None] when the
    connection or the query raises. *)
Definition is_snowflake_setup_needed (catalogue : option (list Table.t))
  : bool :=
  match catalogue with
  | Some tables => bool_decide (count_required tables < 5)%nat
  | None => true
  end.

(** ** [setup_snowflake]: the statements of the set-up file *)

(** Text is a list of code points. *)
Definition semicolon : N := 59%N.

(** [str.split(sep)] for a one-character separator. *)
Fixpoint split (sep : N) (s : list N) : list (list N) :=
  match s with
  | [] => [[]]
  | c :: s =>
      if decide (c = sep) then [] :: split sep s
      else match split sep s with
           | piece :: pieces => (c :: piece) :: pieces
           | [] => [[c]]
           end
  end.

(** [str.isspace] on one character. *)
Definition isspace (c : N) : bool :=
  ((9 <=? c) && (c <=? 13) || (28 <=? c) && (c <=? 32)
   || (c =? 133) || (c =? 160) || (c =? 5760)
   || (8192 <=? c) && (c <=? 8202) || (c =? 8232) || (c =? 8233)
   || (c =? 8239) || (c =? 8287) || (c =? 12288))%N.

Fixpoint lstrip (s : list N) : list N :=
  match s with
  | [] => []
  | c :: s' => if isspace c then lstrip s' else s
  end.

Definition rstrip (s : list N) : list N := reverse (lstrip (reverse s)).

(** [str.strip()] *)
Definition strip (s : list N) : list N := rstrip (lstrip s).

(** The statements [setup_snowflake] passes to [cursor.execute], in
    order: [for command in text.split(';'): if command.strip(): ...]. *)
Definition setup_snowflake (file_text : list N) : list (list N) :=
  filter (λ command, strip command ≠ []) (split semicolon file_text).

(** [';'.join(pieces)] *)
Fixpoint join (sep : N) (pieces : list (list N)) : list N :=
  match pieces with
  | [] => []
  | [piece] => piece
  | piece :: pieces => piece ++ sep :: join sep pieces
  end.

(** * The race page of [streamlit_app.py] *)

(** A row of the [race_details] query. *)
Module Detail.
Record t := mk {
  TEAM_NAME : string;
  CAR_NAME : string;
  TIME_TAKEN : Q;
  POSITION : Z
}.
End Detail.

(** [SELECT t.TEAM_NAME, c.CAR_NAME, e.TIME_TAKEN, r.POSITION
     FROM RACE_RESULTS r
     JOIN RACE_ENTRIES e ON r.RACE_ID = e.RACE_ID AND r.CAR_ID = e.CAR_ID
     JOIN TEAMS t ON r.TEAM_ID = t.TEAM_ID
     JOIN CARS c ON r.CAR_ID = c.CAR_ID
     WHERE r.RACE_ID = race_id]: the rows one result row joins to. *)
Definition details_of_result (race_id : Z) (db : DB) (r : Result.t)
  : list Detail.t :=
  e ← RACE_ENTRIES db;
  t ← option_list (TEAMS db !! Result.TEAM_ID r);
  c ← CARS db;
  if decide (Result.RACE_ID r = Entry.RACE_ID e
             ∧ Result.CAR_ID r = Entry.CAR_ID e
             ∧ Result.CAR_ID r = Car.CAR_ID c
             ∧ Result.RACE_ID r = race_id)
  then [Detail.mk (Team.TEAM_NAME t) (Car.CAR_NAME c) (Entry.TIME_TAKEN e)
                  (Result.POSITION r)]
  else [].

Definition join_race_details (race_id : Z) (db : DB) : list Detail.t :=
  r ← RACE_RESULTS db; details_of_result race_id db r.

(** [ORDER BY r.POSITION ASC] *)
Definition by_position : relation Detail.t :=
  λ a b, (Detail.POSITION a ≤ Detail.POSITION b)%Z.

#[global] Instance by_position_dec : RelDecision by_position.
Proof. intros a b. unfold by_position. apply _. Defined.

#[global] Instance by_position_total : Total by_position.
Proof. intros a b. unfold by_position. lia. Qed.

#[global] Instance by_position_trans : Transitive by_position.
Proof. intros a b c. unfold by_position. lia. Qed.

Definition select_race_details (race_id : Z) (db : DB) : list Detail.t :=
  merge_sort by_position (join_race_details race_id db).

Inductive medal := Gold | Silver | Bronze.

(** The dictionary [{1: gold, 2: silver, 3: bronze}] of the podium. *)
Definition medals : gmap Z medal :=
  <[1%Z := Gold]> (<[2%Z := Silver]> (<[3%Z := Bronze]> ∅)).

(** A bar of the chart: LABEL, TEAM_NAME and TIME_TAKEN_MIN. *)
Module Bar.
Record t := mk { LABEL : string; TEAM_NAME : string; TIME_TAKEN_MIN : Q }.
End Bar.

(** What the page shows, one constructor for each output call. *)
Inductive widget :=
| RaceCompleted                   (* [st.success("Race completed successfully.")] *)
| LastRaceVisualization           (* [st.subheader("Last Race Visualization")] *)
| PodiumHeading                   (* [st.markdown("### Podium")] *)
| PodiumLine (medal : option medal) (team_name car_name : string)
             (minutes : Q)        (* [st.write(f"{MEDAL} {TEAM_NAME} ...")] *)
| FinishTimesChart (bars : list Bar.t)          (* [st.plotly_chart(fig)] *)
| WinnerLine (team_name car_name : string)      (* [st.write("Winner: ...")] *).

(** [LABEL = TEAM_NAME + ' - ' + CAR_NAME] and
    [TIME_TAKEN_MIN = TIME_TAKEN / 60.0] *)
Definition bar_of (d : Detail.t) : Bar.t :=
  Bar.mk (String.append (Detail.TEAM_NAME d)
                        (String.append " - " (Detail.CAR_NAME d)))
         (Detail.TEAM_NAME d) (Detail.TIME_TAKEN d / 60).

(** [podium = race_details.head(3)] with its MEDAL column, one line
    for each row. *)
Definition podium_lines (race_details : list Detail.t) : list widget :=
  (λ d, PodiumLine (medals !! Detail.POSITION d) (Detail.TEAM_NAME d)
                   (Detail.CAR_NAME d) (Detail.TIME_TAKEN d / 60))
    <$> take 3 race_details.

(** The visualisation of the last race. *)
Definition visualize (race_id : Z) (db : DB) : list widget :=
  LastRaceVisualization ::
  let race_details := select_race_details race_id db in
  match race_details with
  | [] => []
  | first :: _ =>
      PodiumHeading :: podium_lines race_details
      ++ [FinishTimesChart (bar_of <$> merge_sort by_position race_details);
          WinnerLine (Detail.TEAM_NAME first) (Detail.CAR_NAME first)]
  end.

(** The body of [if st.button("Start Rally!")]: the race, the success
    box, and the visualisation when the race id is truthy.  No statement
    of the body raises here, so the error box of the [except] branch is
    never shown. *)
Definition start_rally (new_id now : Z) (distance fee : Q) (db : DB)
  : list widget * DB :=
  let '(latest_race_id, db') := start_race new_id now distance fee db in
  (RaceCompleted ::
   match latest_race_id with
   | Some race_id => if decide (race_id = 0%Z) then []
                     else visualize race_id db'
   | None => []
   end, db').

(** ** More sample data *)

(** The two teams of the example after an earlier race, event 3, whose
    row is stamped 200. *)
Definition after_event_3 : DB :=
  mkDB (TEAMS two_teams) (CARS two_teams) [RaceEvent.mk 3 500 200] [] [].

(** * Proofs *)

(** ** The monad and the loops *)

Lemma for_each_execute {A} (f : A → DB → DB) (xs : list A) (w : DB) :
  for_each xs (λ x, execute (f x)) w = (inr tt, foldl (λ w x, f x w) w xs).
Proof.
  revert w. induction xs as [|x xs IH]; intros w; simpl; [reflexivity|].
  unfold mbind, M_bind, execute at 1. simpl. apply IH.
Qed.

Lemma collect_fees_run fee df w :
  collect_fees fee df w = (inr tt, fees_state fee df w).
Proof. unfold collect_fees, fees_state. apply for_each_execute. Qed.

Lemma credit_prizes_run rs w :
  credit_prizes rs w = (inr tt, credit_state rs w).
Proof.
  unfold credit_prizes, credit_state. revert w.
  induction rs as [|r rs IH]; intros w; simpl; [reflexivity|].
  unfold mbind, M_bind, credit_row.
  destruct (decide (0 < Result.PRIZE_MONEY r)); simpl; apply IH.
Qed.

(** ** [unique] *)

Lemma elem_of_unique_from seen l x :
  x ∈ unique_from seen l ↔ x ∈ l ∧ x ∉ seen.
Proof.
  revert seen. induction l as [|y l IH]; intros seen; simpl.
  - set_solver.
  - destruct (decide (y ∈ seen)).
    + rewrite IH. set_solver.
    + rewrite elem_of_cons, IH. destruct (decide (x = y)); set_solver.
Qed.

Lemma NoDup_unique_from seen l : NoDup (unique_from seen l).
Proof.
  revert seen. induction l as [|y l IH]; intros seen; simpl.
  - constructor.
  - destruct (decide (y ∈ seen)); [apply IH|].
    constructor; [|apply IH].
    rewrite elem_of_unique_from. set_solver.
Qed.

Lemma elem_of_unique l x : x ∈ unique l ↔ x ∈ l.
Proof. unfold unique. rewrite elem_of_unique_from. set_solver. Qed.

Lemma NoDup_unique l : NoDup (unique l).
Proof. apply NoDup_unique_from. Qed.

(** ** Budget updates *)

Lemma set_teams_id w : set_teams (TEAMS w) w = w.
Proof. by destruct w. Qed.

Lemma fold_deduct_teams fee ids w :
  foldl (λ w team_id, update_deduct fee team_id w) w ids
  = set_teams (deduct_teams fee ids (TEAMS w)) w.
Proof.
  revert w. induction ids as [|i ids IH]; intros w; cbn [foldl].
  - symmetry. apply set_teams_id.
  - rewrite IH. unfold deduct_teams. cbn [foldl]. reflexivity.
Qed.

Lemma credit_state_teams rs w :
  credit_state rs w = set_teams (credit_teams rs (TEAMS w)) w.
Proof.
  unfold credit_state, credit_teams. revert w.
  induction rs as [|r rs IH]; intros w; cbn [foldl].
  - symmetry. apply set_teams_id.
  - rewrite IH. unfold credit_row. by case_decide.
Qed.

Lemma deduct_teams_lookup fee ids (teams : gmap Z Team.t) k :
  NoDup ids →
  deduct_teams fee ids teams !! k
  = if decide (k ∈ ids) then sub_from_budget fee <$> teams !! k
    else teams !! k.
Proof.
  intros Hnd. revert teams. unfold deduct_teams.
  induction Hnd as [|i ids Hi Hnd IH]; intros teams; cbn [foldl].
  - rewrite decide_False; [done|apply not_elem_of_nil].
  - rewrite IH.
    destruct (decide (k = i)) as [->|Hne].
    + rewrite (decide_False (P := i ∈ ids)) by done.
      rewrite decide_True by apply list_elem_of_here.
      by rewrite lookup_alter_eq.
    + rewrite lookup_alter_ne by done.
      destruct (decide (k ∈ ids)) as [Hin|Hin].
      * rewrite decide_True; [done|by apply list_elem_of_further].
      * rewrite decide_False; [done|]. rewrite elem_of_cons. tauto.
Qed.

Lemma credit_teams_other rs (teams : gmap Z Team.t) k :
  k ∉ Result.TEAM_ID <$> rs →
  credit_teams rs teams !! k = teams !! k.
Proof.
  unfold credit_teams. revert teams.
  induction rs as [|r rs IH]; intros teams Hk; cbn [foldl]; [done|].
  rewrite fmap_cons, not_elem_of_cons in Hk. destruct Hk as [Hne Hk].
  rewrite IH by done. case_decide; [|done].
  by rewrite lookup_alter_ne.
Qed.

(** ** The two ways [start_race] ends *)

Lemma latest_event_snoc evs e : is_Some (latest_event (evs ++ [e])).
Proof.
  unfold latest_event. rewrite foldr_app. cbn [foldr].
  generalize e. induction evs as [|x evs IH]; intros e0; cbn [foldr]; [eauto|].
  destruct (IH e0) as [m ->]. case_match; eauto.
Qed.

Lemma select_eligible_insert new_id now distance fee db :
  select_eligible fee (insert_race_event new_id now distance db)
  = select_eligible fee db.
Proof. reflexivity. Qed.

Lemma start_race_aborts new_id now distance fee db :
  select_eligible fee db = [] →
  start_race_body new_id now distance fee db
  = (inl NoTeamsWithEnoughBudget, insert_race_event new_id now distance db)
  ∧ start_race new_id now distance fee db
    = (None, insert_race_event new_id now distance db).
Proof.
  intros Hdf.
  assert (start_race_body new_id now distance fee db
          = (inl NoTeamsWithEnoughBudget,
             insert_race_event new_id now distance db)) as Hbody.
  { unfold start_race_body, mbind, M_bind, execute, query, mret, M_ret.
    unfold select_latest_race_id. cbn [RACE_EVENTS insert_race_event].
    destruct (latest_event_snoc (RACE_EVENTS db)
                (RaceEvent.mk new_id distance now)) as [m ->].
    cbn [fmap option_fmap option_map].
    rewrite select_eligible_insert, Hdf. reflexivity. }
  split; [exact Hbody|].
  unfold start_race, connect. cbn [working committed].
  rewrite Hbody. reflexivity.
Qed.

Lemma start_race_commits new_id now distance fee db :
  select_eligible fee db ≠ [] →
  ∃ race_id,
    select_latest_race_id (insert_race_event new_id now distance db)
    = Some race_id
    ∧ start_race new_id now distance fee db
      = (Some race_id, committed_state new_id now race_id distance fee db).
Proof.
  intros Hdf.
  destruct (latest_event_snoc (RACE_EVENTS db)
              (RaceEvent.mk new_id distance now)) as [m Hm].
  exists (RaceEvent.RACE_ID m). split.
  { unfold select_latest_race_id. cbn [RACE_EVENTS insert_race_event].
    by rewrite Hm. }
  unfold start_race, connect. cbn [working committed].
  unfold start_race_body, mbind, M_bind, execute, query, mret, M_ret.
  unfold select_latest_race_id. cbn [RACE_EVENTS insert_race_event].
  rewrite Hm. cbn [fmap option_fmap option_map].
  rewrite select_eligible_insert.
  destruct (select_eligible fee db) as [|r df] eqn:Edf; [done|].
  rewrite collect_fees_run, credit_prizes_run.
  unfold fees_state. rewrite fold_deduct_teams, credit_state_teams.
  unfold committed_state. rewrite Edf. reflexivity.
Qed.

(** ** Eligibility *)

Lemma elem_of_select_eligible fee db r :
  r ∈ select_eligible fee db ↔
  ∃ c t, c ∈ CARS db ∧ TEAMS db !! Car.TEAM_ID c = Some t ∧
         fee <= Team.BUDGET t ∧
         r = Row.mk (Car.CAR_ID c) (Car.CAR_NAME c) (Car.SPEED c)
                    (Car.PIT_STOP_INTERVAL c) (Car.PIT_STOP_DURATION c)
                    (Car.TEAM_ID c) (Team.TEAM_NAME t) (Team.BUDGET t).
Proof.
  unfold select_eligible. rewrite list_elem_of_omap. split.
  - intros (c & Hc & Hj). unfold join_row in Hj.
    destruct (TEAMS db !! Car.TEAM_ID c) as [t|] eqn:Et; [|done].
    case_decide; [|done]. injection Hj as <-. eauto 10.
  - intros (c & t & Hc & Et & Hfee & ->). exists c. split; [done|].
    unfold join_row. rewrite Et. by rewrite decide_True.
Qed.

Lemma eligible_team_ids fee db tid :
  tid ∈ Row.TEAM_ID <$> select_eligible fee db ↔ owns_eligible_car fee db tid.
Proof.
  rewrite list_elem_of_fmap. unfold owns_eligible_car. split.
  - intros (r & -> & Hr). apply elem_of_select_eligible in Hr.
    destruct Hr as (c & t & Hc & Et & Hfee & ->). cbn. eauto 10.
  - intros (c & t & Hc & <- & Et & Hfee). eexists. split; [|
      apply elem_of_select_eligible; exists c, t; eauto].
    reflexivity.
Qed.

Lemma elem_of_entries_df race_id distance fee df e :
  e ∈ entries_df race_id distance fee df ↔
  ∃ r, r ∈ df ∧ e = Entry.mk race_id (Row.TEAM_ID r) (Row.CAR_ID r)
                             (time_taken distance r) fee.
Proof. unfold entries_df. rewrite list_elem_of_fmap. naive_solver. Qed.

Lemma results_team_ids es :
  Result.TEAM_ID <$> results_df es = Entry.TEAM_ID <$> es.
Proof.
  unfold results_df.
  assert (length (rank_min (Entry.TIME_TAKEN <$> es)) = length es) as Hlen.
  { unfold rank_min. by rewrite !length_fmap. }
  revert Hlen. generalize (rank_min (Entry.TIME_TAKEN <$> es)).
  generalize (total_pot es).
  induction es as [|e es IH]; intros pot [|p ps] Hlen; try done.
  cbn. f_equal. apply IH. by injection Hlen.
Qed.

Lemma entries_team_ids race_id distance fee df :
  Entry.TEAM_ID <$> entries_df race_id distance fee df = Row.TEAM_ID <$> df.
Proof. unfold entries_df. rewrite <- list_fmap_compose. reflexivity. Qed.

(** The written rows of either ending of [start_race]. *)
Lemma start_race_cases new_id now distance fee db :
  (select_eligible fee db = [] ∧
   start_race new_id now distance fee db
   = (None, insert_race_event new_id now distance db))
  ∨ (select_eligible fee db ≠ [] ∧ ∃ race_id,
       start_race new_id now distance fee db
       = (Some race_id, committed_state new_id now race_id distance fee db)).
Proof.
  destruct (select_eligible fee db) as [|r df] eqn:Edf.
  - left. split; [done|]. by apply start_race_aborts.
  - right. split; [done|].
    destruct (start_race_commits new_id now distance fee db) as (rid & _ & H).
    { by rewrite Edf. }
    exists rid. exact H.
Qed.

(** * The claims *)

(** ** Eligibility and the transaction boundary *)

(** C7. A car gets a RaceEntry row of the race exactly when its owning
    team's budget at the eligibility check is at least the fee; a team
    whose budget is strictly below the fee appears in no RaceEntry of the
    race. *)
Theorem entry_iff_team_affords_fee new_id now distance fee db :
  ∃ es,
    appended (RACE_ENTRIES db)
             (RACE_ENTRIES (start_race new_id now distance fee db).2) es
    ∧ (∀ car_id team_id,
         (∃ e, e ∈ es ∧ Entry.CAR_ID e = car_id ∧ Entry.TEAM_ID e = team_id)
         ↔ (∃ c, c ∈ CARS db ∧ Car.CAR_ID c = car_id ∧
                 Car.TEAM_ID c = team_id ∧ eligible fee db c))
    ∧ (∀ tid t e,
         TEAMS db !! tid = Some t → Team.BUDGET t < fee →
         e ∈ es → Entry.TEAM_ID e ≠ tid).
Proof.
  destruct (start_race_cases new_id now distance fee db)
    as [[Hdf ->]|[Hdf [rid ->]]]; cbn [snd].
  - exists []. split; [unfold appended; by rewrite app_nil_r|]. split.
    + intros car_id team_id. split.
      * intros (e & He & _). by apply elem_of_nil in He.
      * intros (c & Hc & _ & _ & t & Et & Hfee). exfalso.
        eapply (not_elem_of_nil (A := Row.t)). rewrite <- Hdf.
        apply elem_of_select_eligible. eauto 10.
    + intros tid t e _ _ He. by apply elem_of_nil in He.
  - exists (entries_df rid distance fee (select_eligible fee db)).
    split; [reflexivity|]. split.
    + intros car_id team_id. split.
      * intros (e & He & <- & <-). apply elem_of_entries_df in He.
        destruct He as (r & Hr & ->). apply elem_of_select_eligible in Hr.
        destruct Hr as (c & t & Hc & Et & Hfee & ->). cbn.
        exists c. unfold eligible. eauto 10.
      * intros (c & Hc & <- & <- & t & Et & Hfee).
        eexists. split; [apply elem_of_entries_df; eexists; split;
          [apply elem_of_select_eligible; exists c, t; eauto|reflexivity]|].
        by cbn.
    + intros tid t e Et Hlt He <-. apply elem_of_entries_df in He.
      destruct He as (r & Hr & ->). apply elem_of_select_eligible in Hr.
      destruct Hr as (c & t' & Hc & Et' & Hfee & ->). cbn in Et.
      rewrite Et in Et'. injection Et' as <-. lra.
Qed.

Lemma entry_iff_team_affords_fee_witness :
  ∃ es,
    appended [] (RACE_ENTRIES (start_race 7 100 1000 600 two_teams).2) es
    ∧ (∀ car_id team_id,
         (∃ e, e ∈ es ∧ Entry.CAR_ID e = car_id ∧ Entry.TEAM_ID e = team_id)
         ↔ (∃ c, c ∈ CARS two_teams ∧ Car.CAR_ID c = car_id ∧
                 Car.TEAM_ID c = team_id ∧ eligible 600 two_teams c))
    ∧ (∀ tid t e,
         TEAMS two_teams !! tid = Some t → Team.BUDGET t < 600 →
         e ∈ es → Entry.TEAM_ID e ≠ tid).
Proof. exact (entry_iff_team_affords_fee 7 100 1000 600 two_teams). Defined.

(** C8. The code does not do what the claim asks.  When no car is
    eligible the body of [start_race] raises the "no teams with enough
    budget" exception and the caller gets no race id, and no team, car,
    entry or result has changed.  But the RaceEvent row of step 1 was
    committed when it was inserted: the [rollback] of the [except]
    branch finds nothing to undo and the row stays in RACE_EVENTS. *)
Theorem no_eligible_car_leaves_race_event new_id now distance fee db :
  (∀ c, c ∈ CARS db → ¬ eligible fee db c) →
  (start_race_body new_id now distance fee db).1 = inl NoTeamsWithEnoughBudget
  ∧ ∃ db',
      start_race new_id now distance fee db = (None, db')
      ∧ RACE_EVENTS db' = RACE_EVENTS db ++ [new_event new_id now distance]
      ∧ db' ≠ db
      ∧ TEAMS db' = TEAMS db ∧ CARS db' = CARS db
      ∧ RACE_ENTRIES db' = RACE_ENTRIES db
      ∧ RACE_RESULTS db' = RACE_RESULTS db.
Proof.
  intros Hnone.
  assert (select_eligible fee db = []) as Hdf.
  { apply elem_of_nil_inv. intros r Hr.
    apply elem_of_select_eligible in Hr.
    destruct Hr as (c & t & Hc & Et & Hfee & _).
    apply (Hnone c Hc). by exists t. }
  destruct (start_race_aborts new_id now distance fee db Hdf) as [Hbody Hrun].
  rewrite Hbody. split; [done|].
  exists (insert_race_event new_id now distance db).
  split; [exact Hrun|]. split; [done|]. split; [|done].
  intros Heq. apply (f_equal (λ d, length (RACE_EVENTS d))) in Heq.
  cbn [RACE_EVENTS insert_race_event] in Heq.
  rewrite length_app in Heq. cbn in Heq. lia.
Qed.

Lemma no_row_no_eligible_car fee db :
  select_eligible fee db = [] → ∀ c, c ∈ CARS db → ¬ eligible fee db c.
Proof.
  intros Hdf c Hc (t & Et & Hfee).
  eapply (not_elem_of_nil (A := Row.t)). rewrite <- Hdf.
  apply elem_of_select_eligible. eauto 10.
Qed.

Lemma no_eligible_car_leaves_race_event_witness :
  (∀ c, c ∈ CARS two_teams → ¬ eligible 1600 two_teams c)
  ∧ (start_race 7 100 1000 1600 two_teams).1 = None
  ∧ RACE_EVENTS (start_race 7 100 1000 1600 two_teams).2
    = [RaceEvent.mk 7 1000 100]
  ∧ ∃ db',
      start_race 7 100 1000 1600 two_teams = (None, db')
      ∧ RACE_EVENTS db' = RACE_EVENTS two_teams ++ [new_event 7 100 1000]
      ∧ db' ≠ two_teams
      ∧ TEAMS db' = TEAMS two_teams ∧ CARS db' = CARS two_teams
      ∧ RACE_ENTRIES db' = RACE_ENTRIES two_teams
      ∧ RACE_RESULTS db' = RACE_RESULTS two_teams.
Proof.
  assert (∀ c, c ∈ CARS two_teams → ¬ eligible 1600 two_teams c) as H.
  { apply no_row_no_eligible_car. vm_compute. reflexivity. }
  split; [exact H|]. split; [vm_compute; reflexivity|].
  split; [vm_compute; reflexivity|].
  exact (proj2 (no_eligible_car_leaves_race_event 7 100 1000 1600 two_teams H)).
Defined.

(** ** Budgets *)

Lemma not_owner_not_in_rows fee db tid :
  ¬ owns_eligible_car fee db tid →
  tid ∉ unique (Row.TEAM_ID <$> select_eligible fee db).
Proof. intros Hno Hin. apply Hno, eligible_team_ids, elem_of_unique, Hin. Qed.

Lemma budget_below_fee_owns_none fee db tid t :
  TEAMS db !! tid = Some t → Team.BUDGET t < fee →
  ¬ owns_eligible_car fee db tid.
Proof.
  intros Et Hlt (c & t' & _ & _ & Et' & Hfee).
  rewrite Et in Et'. injection Et' as <-. lra.
Qed.

Lemma no_car_owns_none fee db tid :
  (∀ c, c ∈ CARS db → Car.TEAM_ID c ≠ tid) →
  ¬ owns_eligible_car fee db tid.
Proof. intros Hno (c & t & Hc & Hid & _). by apply (Hno c). Qed.



(** C9. A successful race leaves unchanged the budget of every team that
    owns no eligible car, be it that its budget is below the fee or that
    it has no car: only teams owning an eligible car see their budget
    change. *)
Theorem ineligible_team_budget_unchanged
    new_id now distance fee db race_id db' tid :
  start_race new_id now distance fee db = (Some race_id, db') →
  ¬ owns_eligible_car fee db tid →
  TEAMS db' !! tid = TEAMS db !! tid.
Proof.
  intros Hrun Hno.
  destruct (start_race_cases new_id now distance fee db)
    as [[_ Hr]|[_ [rid Hr]]]; rewrite Hr in Hrun; [done|].
  injection Hrun as _ <-. unfold committed_state. cbn [TEAMS].
  rewrite credit_teams_other.
  - rewrite deduct_teams_lookup by apply NoDup_unique.
    by rewrite decide_False by (by apply not_owner_not_in_rows).
  - rewrite results_team_ids, entries_team_ids.
    intros Hin. by apply Hno, eligible_team_ids.
Qed.

Lemma ineligible_team_budget_unchanged_witness :
  let run := start_race 7 100 1000 600 two_teams in
  run.1 = Some 7%Z
  ∧ ¬ owns_eligible_car 600 two_teams 1
  ∧ TEAMS run.2 !! 1%Z = TEAMS two_teams !! 1%Z.
Proof.
  assert (¬ owns_eligible_car 600 two_teams 1) as Hno.
  { apply (budget_below_fee_owns_none _ _ _ (Team.mk "A" 500));
      [reflexivity|]. unfold Qlt. cbn. lia. }
  split; [vm_compute; reflexivity|]. split; [exact Hno|].
  apply (ineligible_team_budget_unchanged 7 100 1000 600 two_teams 7 _ 1);
    [|exact Hno].
  vm_compute. reflexivity.
Defined.

(** ** Ranking *)

Lemma count_lt_nil x : count_lt x [] = 0%nat.
Proof. reflexivity. Qed.

Lemma count_lt_cons x y l :
  count_lt x (y :: l)
  = if decide (y < x) then S (count_lt x l) else count_lt x l.
Proof.
  unfold count_lt. case_decide.
  - by rewrite filter_cons_True.
  - by rewrite filter_cons_False.
Qed.

Lemma count_lt_perm x l l' : l ≡ₚ l' → count_lt x l = count_lt x l'.
Proof. intros H. unfold count_lt. by rewrite H. Qed.

Lemma count_lt_Qeq x x' l : x == x' → count_lt x l = count_lt x' l.
Proof.
  intros Hx. induction l as [|y l IH]; [done|].
  rewrite !count_lt_cons, IH.
  destruct (decide (y < x)), (decide (y < x')); try done; exfalso; lra.
Qed.

Lemma count_lt_mono x y l : x <= y → (count_lt x l ≤ count_lt y l)%nat.
Proof.
  intros Hxy. induction l as [|z l IH]; [done|].
  rewrite !count_lt_cons.
  destruct (decide (z < x)), (decide (z < y)); try lia. exfalso; lra.
Qed.

Lemma count_lt_strict x y l :
  x < y → (∃ z, z ∈ l ∧ z == x) → (count_lt x l < count_lt y l)%nat.
Proof.
  intros Hxy. induction l as [|a l IH]; intros (z & Hz & Hzx).
  - by apply elem_of_nil in Hz.
  - rewrite !count_lt_cons. apply elem_of_cons in Hz.
    pose proof (count_lt_mono x y l ltac:(lra)) as Hmono.
    destruct (decide (a < x)), (decide (a < y)); try lia.
    + destruct Hz as [->|Hz]; [exfalso; lra|].
      apply Nat.succ_lt_mono in IH; [lia|eauto].
    + exfalso; lra.
    + destruct Hz as [->|Hz]; [exfalso; lra|]. apply IH. eauto.
Qed.

Lemma count_lt_zero x l : Forall (λ y, x <= y) l → count_lt x l = 0%nat.
Proof.
  induction 1 as [|y l Hy _ IH]; [done|].
  rewrite count_lt_cons, IH. rewrite decide_False; [done|lra].
Qed.

(** In a sorted list the first member of the group of [x] has exactly
    the values strictly below [x] in front of it. *)
Lemma first_index_sorted x l :
  StronglySorted Qle l → (∃ z, z ∈ l ∧ z == x) →
  first_index x l = count_lt x l.
Proof.
  induction 1 as [|a l Hl IH Ha]; intros (z & Hz & Hzx).
  - by apply elem_of_nil in Hz.
  - cbn [first_index]. rewrite count_lt_cons.
    destruct (decide (a == x)) as [Hax|Hax].
    + rewrite decide_False by lra. symmetry. apply count_lt_zero.
      eapply Forall_impl; [exact Ha|]. intros y Hy. cbn in Hy. lra.
    + apply elem_of_cons in Hz. destruct Hz as [->|Hz]; [done|].
      rewrite Forall_forall in Ha. pose proof (Ha z Hz) as Haz.
      rewrite decide_True by (destruct (Qlt_le_dec a x); [done|];
                              exfalso; apply Hax; lra).
      f_equal. apply IH. eauto.
Qed.

(** The position [rank] computes is the number of strictly smaller
    values plus one. *)
Lemma rank_min_count xs :
  rank_min xs = (λ x, Z.of_nat (S (count_lt x xs))) <$> xs.
Proof.
  unfold rank_min. apply Forall_fmap_ext, Forall_forall. intros x Hx.
  do 2 f_equal.
  rewrite <- (count_lt_perm x _ _ (merge_sort_Permutation Qle xs)).
  apply first_index_sorted.
  - apply Sorted_StronglySorted; [apply _|]. apply Sorted_merge_sort, _.
  - exists x. split; [|reflexivity].
    by rewrite merge_sort_Permutation.
Qed.

Lemma zip_with_fmap_same {A B C} (f : A → B → C) (g : A → B) l :
  zip_with f l (g <$> l) = (λ x, f x (g x)) <$> l.
Proof. induction l as [|x l IH]; [done|]. cbn. by rewrite IH. Qed.

Lemma results_df_rows es : results_df es = result_of es <$> es.
Proof.
  unfold results_df. rewrite rank_min_count.
  rewrite <- list_fmap_compose. apply zip_with_fmap_same.
Qed.

(** C5. Positions follow "min" ranking over ascending time: the position
    of an entry is the number of entries with a strictly smaller time
    plus one, so equal times share a position and a smaller time gets a
    smaller position. *)
Theorem position_is_min_rank new_id now distance fee db race_id db' :
  start_race new_id now distance fee db = (Some race_id, db') →
  ∃ es rs,
    appended (RACE_ENTRIES db) (RACE_ENTRIES db') es
    ∧ appended (RACE_RESULTS db) (RACE_RESULTS db') rs
    ∧ Forall2 (λ e r,
         Result.CAR_ID r = Entry.CAR_ID e ∧
         Result.TEAM_ID r = Entry.TEAM_ID e ∧
         Result.POSITION r
         = (Z.of_nat (count_lt (Entry.TIME_TAKEN e)
                               (Entry.TIME_TAKEN <$> es)) + 1)%Z) es rs
    ∧ (∀ i j ei ej ri rj,
         es !! i = Some ei → es !! j = Some ej →
         rs !! i = Some ri → rs !! j = Some rj →
         (Entry.TIME_TAKEN ei == Entry.TIME_TAKEN ej →
          Result.POSITION ri = Result.POSITION rj)
         ∧ (Entry.TIME_TAKEN ei < Entry.TIME_TAKEN ej →
            (Result.POSITION ri < Result.POSITION rj)%Z)).
Proof.
  intros Hrun.
  destruct (start_race_cases new_id now distance fee db)
    as [[_ Hr]|[_ [rid Hr]]]; rewrite Hr in Hrun; [done|].
  injection Hrun as _ <-. unfold committed_state. cbn.
  set (es := entries_df rid distance fee (select_eligible fee db)).
  exists es, (results_df es).
  split; [done|]. split; [done|]. rewrite results_df_rows. split.
  - apply Forall2_fmap_r, Forall_Forall2_diag, Forall_forall.
    intros e _. cbn. repeat split; lia.
  - intros i j ei ej ri rj Hi Hj Hri Hrj.
    rewrite list_lookup_fmap, Hi in Hri. rewrite list_lookup_fmap, Hj in Hrj.
    injection Hri as <-. injection Hrj as <-. cbn. split.
    + intros Heq. do 2 f_equal. by apply count_lt_Qeq.
    + intros Hlt.
      enough (count_lt (Entry.TIME_TAKEN ei) (Entry.TIME_TAKEN <$> es)
              < count_lt (Entry.TIME_TAKEN ej) (Entry.TIME_TAKEN <$> es))%nat
        by lia.
      apply count_lt_strict; [done|].
      exists (Entry.TIME_TAKEN ei). split; [|reflexivity].
      apply list_elem_of_fmap_2. by eapply list_elem_of_lookup_2.
Qed.

Lemma position_is_min_rank_witness :
  let run := start_race 7 100 1000 100 tied_runners_up in
  run = (Some 7%Z, run.2)
  ∧ ∃ es rs,
      appended (RACE_ENTRIES tied_runners_up) (RACE_ENTRIES run.2) es
      ∧ appended (RACE_RESULTS tied_runners_up) (RACE_RESULTS run.2) rs
      ∧ Forall2 (λ e r,
           Result.CAR_ID r = Entry.CAR_ID e ∧
           Result.TEAM_ID r = Entry.TEAM_ID e ∧
           Result.POSITION r
           = (Z.of_nat (count_lt (Entry.TIME_TAKEN e)
                                 (Entry.TIME_TAKEN <$> es)) + 1)%Z) es rs
      ∧ (∀ i j ei ej ri rj,
           es !! i = Some ei → es !! j = Some ej →
           rs !! i = Some ri → rs !! j = Some rj →
           (Entry.TIME_TAKEN ei == Entry.TIME_TAKEN ej →
            Result.POSITION ri = Result.POSITION rj)
           ∧ (Entry.TIME_TAKEN ei < Entry.TIME_TAKEN ej →
              (Result.POSITION ri < Result.POSITION rj)%Z)).
Proof.
  assert (start_race 7 100 1000 100 tied_runners_up
          = (Some 7%Z, (start_race 7 100 1000 100 tied_runners_up).2)) as H.
  { vm_compute. reflexivity. }
  split; [exact H|].
  exact (position_is_min_rank 7 100 1000 100 tied_runners_up 7 _ H).
Defined.

(** The positions of the sample with two equally fast runners-up. *)
Example tied_runners_up_positions :
  Result.POSITION <$> RACE_RESULTS (start_race 7 100 1000 100 tied_runners_up).2
  = [1; 2; 2]%Z.
Proof. vm_compute. reflexivity. Qed.

(** ** Prizes *)

Lemma prize_first pot : prize pot 1 == pot * 0.5.
Proof. reflexivity. Qed.

Lemma prize_second pot : prize pot 2 == pot * 0.3.
Proof. reflexivity. Qed.

Lemma prize_third pot : prize pot 3 == pot * 0.2.
Proof. reflexivity. Qed.

Lemma prize_other pot pos :
  pos ≠ 1%Z → pos ≠ 2%Z → pos ≠ 3%Z → prize pot pos == 0.
Proof.
  intros H1 H2 H3. unfold prize, prize_split.
  rewrite !lookup_insert_ne, lookup_empty by done. cbn. lra.
Qed.

Lemma elem_of_results_df es r :
  r ∈ results_df es → ∃ e, e ∈ es ∧ r = result_of es e.
Proof.
  rewrite results_df_rows, list_elem_of_fmap. naive_solver.
Qed.

(** C4. Position 1 receives 50% of the pot, position 2 receives 30%,
    position 3 receives 20% and every other position receives nothing.
    The rule is applied to each result row on its own, so every entry of
    a group tied at position 1 receives the full 50%. *)
Theorem prize_by_position new_id now distance fee db race_id db' :
  start_race new_id now distance fee db = (Some race_id, db') →
  ∃ es rs,
    appended (RACE_ENTRIES db) (RACE_ENTRIES db') es
    ∧ appended (RACE_RESULTS db) (RACE_RESULTS db') rs
    ∧ ∀ r, r ∈ rs →
        let pot := total_pot es in
        (Result.POSITION r = 1%Z → Result.PRIZE_MONEY r == pot * 0.5)
        ∧ (Result.POSITION r = 2%Z → Result.PRIZE_MONEY r == pot * 0.3)
        ∧ (Result.POSITION r = 3%Z → Result.PRIZE_MONEY r == pot * 0.2)
        ∧ (Result.POSITION r ≠ 1%Z → Result.POSITION r ≠ 2%Z →
           Result.POSITION r ≠ 3%Z → Result.PRIZE_MONEY r == 0).
Proof.
  intros Hrun.
  destruct (start_race_cases new_id now distance fee db)
    as [[_ Hr]|[_ [rid Hr]]]; rewrite Hr in Hrun; [done|].
  injection Hrun as _ <-. unfold committed_state. cbn.
  set (es := entries_df rid distance fee (select_eligible fee db)).
  exists es, (results_df es). split; [done|]. split; [done|].
  intros r Hr'. apply elem_of_results_df in Hr'. destruct Hr' as (e & _ & ->).
  unfold result_of. cbn [Result.POSITION Result.PRIZE_MONEY].
  repeat split.
  - intros ->. apply prize_first.
  - intros ->. apply prize_second.
  - intros ->. apply prize_third.
  - apply prize_other.
Qed.

Lemma prize_by_position_witness :
  let run := start_race 7 100 1000 100 dead_heat in
  run = (Some 7%Z, run.2)
  ∧ Result.POSITION <$> RACE_RESULTS run.2 = [1; 1]%Z
  ∧ ∃ es rs,
      appended (RACE_ENTRIES dead_heat) (RACE_ENTRIES run.2) es
      ∧ appended (RACE_RESULTS dead_heat) (RACE_RESULTS run.2) rs
      ∧ ∀ r, r ∈ rs →
          let pot := total_pot es in
          (Result.POSITION r = 1%Z → Result.PRIZE_MONEY r == pot * 0.5)
          ∧ (Result.POSITION r = 2%Z → Result.PRIZE_MONEY r == pot * 0.3)
          ∧ (Result.POSITION r = 3%Z → Result.PRIZE_MONEY r == pot * 0.2)
          ∧ (Result.POSITION r ≠ 1%Z → Result.POSITION r ≠ 2%Z →
             Result.POSITION r ≠ 3%Z → Result.PRIZE_MONEY r == 0).
Proof.
  assert (start_race 7 100 1000 100 dead_heat
          = (Some 7%Z, (start_race 7 100 1000 100 dead_heat).2)) as H.
  { vm_compute. reflexivity. }
  split; [exact H|]. split; [vm_compute; reflexivity|].
  exact (prize_by_position 7 100 1000 100 dead_heat 7 _ H).
Defined.

(** Both cars of the dead heat are paid half of the pot of 200. *)
Example dead_heat_prizes :
  Forall (λ r, Result.PRIZE_MONEY r == 100)
         (RACE_RESULTS (start_race 7 100 1000 100 dead_heat).2).
Proof. vm_compute. repeat constructor. Qed.

(** ** The pot *)

Lemma Qnat_S n : Qnat (S n) == Qnat n + 1.
Proof. unfold Qnat. rewrite Nat2Z.inj_succ, <- Z.add_1_r, inject_Z_plus. reflexivity. Qed.

Lemma Qnat_nonneg n : 0 <= Qnat n.
Proof. unfold Qnat, Qle. cbn. lia. Qed.

Lemma Qsum_cons x xs : Qsum (x :: xs) = x + Qsum xs.
Proof. reflexivity. Qed.

Lemma Qsum_fees fee (es : list Entry.t) :
  Forall (λ e, Entry.FEE e = fee) es →
  Qsum (Entry.FEE <$> es) == fee * Qnat (length es).
Proof.
  induction 1 as [|e es He _ IH].
  - change (0 == fee * 0). ring.
  - rewrite fmap_cons, Qsum_cons, IH, He. cbn [length]. rewrite Qnat_S. lra.
Qed.

Lemma entries_df_fee race_id distance fee df :
  Forall (λ e, Entry.FEE e = fee) (entries_df race_id distance fee df).
Proof. apply Forall_forall. intros e He. apply elem_of_entries_df in He.
  by destruct He as (r & _ & ->). Qed.

Lemma join_row_eligible fee db c :
  eligible fee db c →
  ∃ r, join_row fee (TEAMS db) c = Some r ∧
       Row.TEAM_ID r = Car.TEAM_ID c ∧ Row.CAR_ID r = Car.CAR_ID c.
Proof.
  intros (t & Et & Hfee). unfold join_row. rewrite Et.
  rewrite decide_True by done. eauto.
Qed.

Lemma join_row_not_eligible fee db c :
  ¬ eligible fee db c → join_row fee (TEAMS db) c = None.
Proof.
  intros Hno. unfold join_row.
  destruct (TEAMS db !! Car.TEAM_ID c) as [t|] eqn:Et; [|done].
  case_decide; [|done]. exfalso. apply Hno. by exists t.
Qed.

(** The rows of [df] are the eligible cars, in the order of CARS. *)
Lemma select_eligible_cars fee db :
  Forall2 (λ c r, join_row fee (TEAMS db) c = Some r)
          (filter (eligible fee db) (CARS db)) (select_eligible fee db).
Proof.
  unfold select_eligible. induction (CARS db) as [|c cars IH]; [constructor|].
  cbn [omap list_omap]. destruct (decide (eligible fee db c)) as [He|He].
  - rewrite filter_cons_True by done.
    destruct (join_row_eligible fee db c He) as (r & Hr & _).
    rewrite Hr. by constructor.
  - rewrite filter_cons_False by done.
    by rewrite (join_row_not_eligible fee db c He).
Qed.

Lemma join_row_team_id fee teams c r :
  join_row fee teams c = Some r → Row.TEAM_ID r = Car.TEAM_ID c.
Proof.
  unfold join_row. destruct (teams !! Car.TEAM_ID c); [|done].
  case_decide; [|done]. by intros [= <-].
Qed.

Lemma Forall2_filter_length {A B} (P : A → Prop) (R : B → Prop)
    `{∀ x, Decision (P x)} `{∀ y, Decision (R y)}
    (rel : A → B → Prop) l k :
  (∀ x y, rel x y → P x ↔ R y) →
  Forall2 rel l k → length (filter P l) = length (filter R k).
Proof.
  intros Hrel. induction 1 as [|x y l k Hxy _ IH]; [done|].
  destruct (decide (P x)) as [Hp|Hp].
  - rewrite !filter_cons_True by (done || by apply (Hrel x y)).
    cbn. by rewrite IH.
  - rewrite !filter_cons_False by (done || by rewrite <- (Hrel x y)). done.
Qed.

Lemma entries_of_length tid race_id distance fee db :
  length (entries_of tid (entries_df race_id distance fee
                                     (select_eligible fee db)))
  = length (eligible_cars_of fee db tid).
Proof.
  unfold entries_of, eligible_cars_of. symmetry.
  eapply (Forall2_filter_length _ _
            (λ c e, ∃ r, join_row fee (TEAMS db) c = Some r ∧
                         Entry.TEAM_ID e = Row.TEAM_ID r)).
  - intros c e (r & Hr & He). apply join_row_team_id in Hr.
    cbn beta. split; congruence.
  - unfold entries_df. apply Forall2_fmap_r.
    eapply Forall2_impl; [apply select_eligible_cars|].
    intros c r Hr. cbn in *. by exists r.
Qed.

Lemma fees_state_lookup fee df w tid :
  TEAMS (fees_state fee df w) !! tid
  = if decide (tid ∈ Row.TEAM_ID <$> df)
    then sub_from_budget fee <$> TEAMS w !! tid
    else TEAMS w !! tid.
Proof.
  unfold fees_state. rewrite fold_deduct_teams. cbn [TEAMS set_teams].
  rewrite deduct_teams_lookup by apply NoDup_unique.
  destruct (decide (tid ∈ Row.TEAM_ID <$> df)) as [Hin|Hin].
  - by rewrite decide_True by (by apply elem_of_unique).
  - by rewrite decide_False by (by rewrite elem_of_unique).
Qed.

(** C2. The prize pool is the sum of the FEE column of the race's
    RaceEntry rows, that is the fee times the number of eligible cars,
    and it is the pool the prizes are taken from.  A team contributes
    the fee once for each of its eligible cars, while fee collection
    takes the fee from its budget once. *)
Theorem pot_is_fee_per_entry new_id now distance fee db race_id db' :
  start_race new_id now distance fee db = (Some race_id, db') →
  ∃ es rs,
    appended (RACE_ENTRIES db) (RACE_ENTRIES db') es
    ∧ appended (RACE_RESULTS db) (RACE_RESULTS db') rs
    ∧ length es = length (filter (eligible fee db) (CARS db))
    ∧ Forall (λ e, Entry.FEE e = fee) es
    ∧ total_pot es == fee * Qnat (length es)
    ∧ (∀ r, r ∈ rs →
         Result.PRIZE_MONEY r
         == fee * Qnat (length es)
            * default 0 (prize_split !! Result.POSITION r))
    ∧ (∀ tid,
         Qsum (Entry.FEE <$> entries_of tid es)
         == fee * Qnat (length (eligible_cars_of fee db tid)))
    ∧ (∀ tid t,
         TEAMS db !! tid = Some t → owns_eligible_car fee db tid →
         TEAMS (collect_fees fee (select_eligible fee db)
                  (insert_race_event new_id now distance db)).2 !! tid
         = Some (Team.mk (Team.TEAM_NAME t) (Team.BUDGET t - fee))).
Proof.
  intros Hrun.
  destruct (start_race_cases new_id now distance fee db)
    as [[_ Hr]|[_ [rid Hr]]]; rewrite Hr in Hrun; [done|].
  injection Hrun as _ <-. unfold committed_state. cbn.
  set (df := select_eligible fee db).
  set (es := entries_df rid distance fee df).
  pose proof (entries_df_fee rid distance fee df) as Hfee.
  exists es, (results_df es). split; [done|]. split; [done|].
  split; [|split; [done|]]; [|split; [|split; [|split]]].
  - unfold es, entries_df. rewrite length_fmap. symmetry.
    eapply Forall2_length, select_eligible_cars.
  - by apply Qsum_fees.
  - intros r Hr'. apply elem_of_results_df in Hr'.
    destruct Hr' as (e & _ & ->). unfold result_of, prize.
    cbn [Result.POSITION Result.PRIZE_MONEY].
    unfold total_pot. by rewrite (Qsum_fees fee es Hfee).
  - intros tid. rewrite Qsum_fees.
    + unfold es, df. by rewrite entries_of_length.
    + unfold entries_of. apply Forall_forall. intros e He.
      apply list_elem_of_filter in He. destruct He as [_ He].
      rewrite Forall_forall in Hfee. by apply Hfee.
  - intros tid t Et Hown. rewrite collect_fees_run. cbn [snd].
    rewrite fees_state_lookup. cbn [TEAMS insert_race_event].
    rewrite decide_True by (by apply eligible_team_ids). by rewrite Et.
Qed.

Lemma pot_is_fee_per_entry_witness :
  let run := start_race 7 100 1000 100 two_cars_one_team in
  run = (Some 7%Z, run.2)
  ∧ total_pot (RACE_ENTRIES run.2) == 200
  ∧ ∃ es rs,
      appended (RACE_ENTRIES two_cars_one_team) (RACE_ENTRIES run.2) es
      ∧ appended (RACE_RESULTS two_cars_one_team) (RACE_RESULTS run.2) rs
      ∧ length es
        = length (filter (eligible 100 two_cars_one_team)
                         (CARS two_cars_one_team))
      ∧ Forall (λ e, Entry.FEE e = 100) es
      ∧ total_pot es == 100 * Qnat (length es)
      ∧ (∀ r, r ∈ rs →
           Result.PRIZE_MONEY r
           == 100 * Qnat (length es)
              * default 0 (prize_split !! Result.POSITION r))
      ∧ (∀ tid,
           Qsum (Entry.FEE <$> entries_of tid es)
           == 100 * Qnat (length (eligible_cars_of 100 two_cars_one_team tid)))
      ∧ (∀ tid t,
           TEAMS two_cars_one_team !! tid = Some t →
           owns_eligible_car 100 two_cars_one_team tid →
           TEAMS (collect_fees 100 (select_eligible 100 two_cars_one_team)
                    (insert_race_event 7 100 1000 two_cars_one_team)).2 !! tid
           = Some (Team.mk (Team.TEAM_NAME t) (Team.BUDGET t - 100))).
Proof.
  assert (start_race 7 100 1000 100 two_cars_one_team
          = (Some 7%Z, (start_race 7 100 1000 100 two_cars_one_team).2)) as H.
  { vm_compute. reflexivity. }
  split; [exact H|]. split; [vm_compute; reflexivity|].
  exact (pot_is_fee_per_entry 7 100 1000 100 two_cars_one_team 7 _ H).
Defined.

(** ** Finishing times *)

Lemma floor_quotient_bounds a b :
  0 < b →
  inject_Z (Qfloor (a / b)) * b <= a
  ∧ a < inject_Z (Qfloor (a / b) + 1) * b.
Proof.
  intros Hb.
  assert (a / b * b == a) as Hq by (field; lra).
  split.
  - rewrite <- Hq at 2. apply Qmult_le_compat_r; [apply Qfloor_le|lra].
  - rewrite <- Hq at 1. apply Qmult_lt_compat_r; [done|apply Qlt_floor].
Qed.

(** C6. Every RaceEntry of the race belongs to an eligible car, and for
    a car of positive speed and positive pit-stop interval its recorded
    time is [(distance / speed) * 3600 + floor(distance / interval) *
    duration]: the hours of driving turned into seconds, plus one
    pit-stop duration for every complete interval covered. *)
Theorem time_taken_formula new_id now distance fee db race_id db' :
  start_race new_id now distance fee db = (Some race_id, db') →
  ∃ es,
    appended (RACE_ENTRIES db) (RACE_ENTRIES db') es
    ∧ Forall2 (λ c e,
         Entry.CAR_ID e = Car.CAR_ID c ∧ Entry.TEAM_ID e = Car.TEAM_ID c ∧
         (0 < Car.SPEED c → 0 < Car.PIT_STOP_INTERVAL c →
          let stops := Qfloor (distance / Car.PIT_STOP_INTERVAL c) in
          Entry.TIME_TAKEN e
          == distance / Car.SPEED c * 3600
             + inject_Z stops * Car.PIT_STOP_DURATION c
          ∧ inject_Z stops * Car.PIT_STOP_INTERVAL c <= distance
          ∧ distance < inject_Z (stops + 1) * Car.PIT_STOP_INTERVAL c
          ∧ (Entry.TIME_TAKEN e - inject_Z stops * Car.PIT_STOP_DURATION c)
            * Car.SPEED c == distance * 3600))
         (filter (eligible fee db) (CARS db)) es.
Proof.
  intros Hrun.
  destruct (start_race_cases new_id now distance fee db)
    as [[_ Hr]|[_ [rid Hr]]]; rewrite Hr in Hrun; [done|].
  injection Hrun as _ <-. unfold committed_state. cbn.
  eexists. split; [reflexivity|].
  unfold entries_df. apply Forall2_fmap_r.
  eapply Forall2_impl; [apply select_eligible_cars|].
  intros c r Hr'. cbn beta in Hr'. unfold join_row in Hr'.
  destruct (TEAMS db !! Car.TEAM_ID c) as [t|]; [|done].
  case_decide; [|done]. injection Hr' as <-.
  unfold time_taken, floordiv. cbn.
  split; [done|]. split; [done|]. intros Hs Hi.
  destruct (floor_quotient_bounds distance (Car.PIT_STOP_INTERVAL c) Hi)
    as [Hlo Hhi].
  split; [reflexivity|]. split; [exact Hlo|]. split; [exact Hhi|].
  field. lra.
Qed.

Lemma time_taken_formula_witness :
  let run := start_race 7 100 1000 400 two_teams in
  run = (Some 7%Z, run.2)
  ∧ Forall2 (λ e t, Entry.TIME_TAKEN e == t) (RACE_ENTRIES run.2)
            [18090; 14440]
  ∧ ∃ es,
      appended (RACE_ENTRIES two_teams) (RACE_ENTRIES run.2) es
      ∧ Forall2 (λ c e,
           Entry.CAR_ID e = Car.CAR_ID c ∧ Entry.TEAM_ID e = Car.TEAM_ID c ∧
           (0 < Car.SPEED c → 0 < Car.PIT_STOP_INTERVAL c →
            let stops := Qfloor (1000 / Car.PIT_STOP_INTERVAL c) in
            Entry.TIME_TAKEN e
            == 1000 / Car.SPEED c * 3600
               + inject_Z stops * Car.PIT_STOP_DURATION c
            ∧ inject_Z stops * Car.PIT_STOP_INTERVAL c <= 1000
            ∧ 1000 < inject_Z (stops + 1) * Car.PIT_STOP_INTERVAL c
            ∧ (Entry.TIME_TAKEN e - inject_Z stops * Car.PIT_STOP_DURATION c)
              * Car.SPEED c == 1000 * 3600))
           (filter (eligible 400 two_teams) (CARS two_teams)) es.
Proof.
  assert (start_race 7 100 1000 400 two_teams
          = (Some 7%Z, (start_race 7 100 1000 400 two_teams).2)) as H.
  { vm_compute. reflexivity. }
  split; [exact H|]. split; [vm_compute; repeat constructor|].
  exact (time_taken_formula 7 100 1000 400 two_teams 7 _ H).
Defined.

(** ** A single entrant *)

Lemma unique_singleton x : unique [x] = [x].
Proof.
  unfold unique. cbn. rewrite decide_False; [done|]. apply not_elem_of_empty.
Qed.

Lemma count_lt_self x : count_lt x [x] = 0%nat.
Proof. rewrite count_lt_cons. rewrite decide_False; [done|lra]. Qed.

(** C10. In a race that returned an id, with exactly one eligible car
    and a positive fee, the car is placed first and wins half of the
    fee, and its team ends half a fee poorer; every other team keeps its
    budget, so half of the fee paid leaves the system. *)
Theorem single_entrant_loses_half_fee
    new_id now distance fee db race_id db' row :
  start_race new_id now distance fee db = (Some race_id, db') →
  select_eligible fee db = [row] → 0 < fee →
  ∃ r t t',
    appended (RACE_RESULTS db) (RACE_RESULTS db') [r]
    ∧ Result.CAR_ID r = Row.CAR_ID row
    ∧ Result.TEAM_ID r = Row.TEAM_ID row
    ∧ Result.POSITION r = 1%Z
    ∧ Result.PRIZE_MONEY r == 0.5 * fee
    ∧ TEAMS db !! Row.TEAM_ID row = Some t
    ∧ TEAMS db' !! Row.TEAM_ID row = Some t'
    ∧ Team.BUDGET t' == Team.BUDGET t - fee / 2
    ∧ ∀ tid, tid ≠ Row.TEAM_ID row → TEAMS db' !! tid = TEAMS db !! tid.
Proof.
  intros Hsome Hdf Hfee.
  destruct (start_race_commits new_id now distance fee db)
    as (rid & _ & Hrun); [by rewrite Hdf|].
  rewrite Hrun in Hsome. injection Hsome as -> <-. clear Hrun.
  rename race_id into rid.
  assert (row ∈ select_eligible fee db) as Hrow
    by (rewrite Hdf; apply list_elem_of_here).
  apply elem_of_select_eligible in Hrow.
  destruct Hrow as (c & t & _ & Et & _ & Erow).
  assert (Row.TEAM_ID row = Car.TEAM_ID c) as Hid by (by rewrite Erow).
  rewrite <- Hid in Et.
  set (e := Entry.mk rid (Row.TEAM_ID row) (Row.CAR_ID row)
                     (time_taken distance row) fee).
  pose proof (prize_first (fee + 0)) as Hp.
  remember (prize (fee + 0) 1) as p eqn:Ep.
  assert (committed_state new_id now rid distance fee db
          = mkDB (alter (add_to_budget p) (Row.TEAM_ID row)
                    (alter (sub_from_budget fee) (Row.TEAM_ID row) (TEAMS db)))
                 (CARS db)
                 (RACE_EVENTS db ++ [new_event new_id now distance])
                 (RACE_ENTRIES db ++ [e])
                 (RACE_RESULTS db
                    ++ [Result.mk rid (Row.TEAM_ID row) (Row.CAR_ID row) 1 p]))
    as Hstate.
  { unfold committed_state. rewrite Hdf.
    change (entries_df rid distance fee [row]) with [e].
    rewrite results_df_rows. cbn [fmap list_fmap].
    unfold result_of. cbn [Entry.TIME_TAKEN Entry.RACE_ID Entry.TEAM_ID
                           Entry.CAR_ID].
    rewrite count_lt_self, unique_singleton.
    change (total_pot [e]) with (fee + 0).
    change (Z.of_nat 1) with 1%Z. rewrite <- Ep.
    unfold credit_teams, deduct_teams. cbn [foldl Result.PRIZE_MONEY
                                            Result.TEAM_ID].
    rewrite decide_True; [done|]. clear -Hfee Hp. lra. }
  rewrite Hstate.
  eexists _, t, _.
  cbn [TEAMS RACE_RESULTS Result.CAR_ID Result.TEAM_ID Result.POSITION
       Result.PRIZE_MONEY].
  split; [reflexivity|]. do 3 (split; [reflexivity|]).
  split; [cbn [Result.PRIZE_MONEY]; clear -Hp; lra|].
  split; [exact Et|].
  split; [by rewrite !lookup_alter_eq, Et|].
  split.
  - cbn [Team.BUDGET add_to_budget sub_from_budget]. rewrite Hp. field.
  - intros tid Hne. by rewrite !lookup_alter_ne.
Qed.

Lemma single_entrant_loses_half_fee_witness :
  let run := start_race 7 100 1000 600 two_teams in
  run = (Some 7%Z, run.2)
  ∧ select_eligible 600 two_teams = [Row.mk 2 "B1" 250 500 20 2 "B" 1000]
  ∧ 0 < 600
  ∧ ∃ r t t',
      appended (RACE_RESULTS two_teams) (RACE_RESULTS run.2) [r]
      ∧ Result.CAR_ID r = 2%Z
      ∧ Result.TEAM_ID r = 2%Z
      ∧ Result.POSITION r = 1%Z
      ∧ Result.PRIZE_MONEY r == 0.5 * 600
      ∧ TEAMS two_teams !! 2%Z = Some t
      ∧ TEAMS run.2 !! 2%Z = Some t'
      ∧ Team.BUDGET t' == Team.BUDGET t - 600 / 2
      ∧ ∀ tid, tid ≠ 2%Z → TEAMS run.2 !! tid = TEAMS two_teams !! tid.
Proof.
  cbv zeta.
  assert (start_race 7 100 1000 600 two_teams
          = (Some 7%Z, (start_race 7 100 1000 600 two_teams).2)) as Hrun
    by (vm_compute; reflexivity).
  assert (select_eligible 600 two_teams
          = [Row.mk 2 "B1" 250 500 20 2 "B" 1000]) as Hdf
    by (vm_compute; reflexivity).
  assert (0 < 600) as Hfee by (unfold Qlt; cbn; lia).
  split; [exact Hrun|]. split; [exact Hdf|]. split; [exact Hfee|].
  exact (single_entrant_loses_half_fee
           7 100 1000 600 two_teams 7 _ _ Hrun Hdf Hfee).
Defined.

(** ** Prizes against the pot *)

Lemma count_position_cons p r rs :
  count_position p (r :: rs)
  = if decide (Result.POSITION r = p) then S (count_position p rs)
    else count_position p rs.
Proof.
  unfold count_position. case_decide.
  - by rewrite filter_cons_True.
  - by rewrite filter_cons_False.
Qed.

(** What the rows are paid in total: the pot times their podium share. *)
Lemma prize_total pot rs :
  Forall (λ r, Result.PRIZE_MONEY r = prize pot (Result.POSITION r)) rs →
  Qsum (Result.PRIZE_MONEY <$> rs) == pot * podium_share rs.
Proof.
  induction 1 as [|r rs Hr _ IH].
  - unfold podium_share. change (0 == pot * (0.5 * 0 + 0.3 * 0 + 0.2 * 0)).
    ring.
  - rewrite fmap_cons, Qsum_cons, IH, Hr. unfold podium_share.
    rewrite !count_position_cons.
    destruct (Z.eq_dec (Result.POSITION r) 1%Z) as [->|H1];
      [|destruct (Z.eq_dec (Result.POSITION r) 2%Z) as [->|H2];
        [|destruct (Z.eq_dec (Result.POSITION r) 3%Z) as [->|H3]]].
    + rewrite prize_first.
      rewrite (decide_True (P := 1%Z = 1%Z)), (decide_False (P := 1%Z = 2%Z)),
        (decide_False (P := 1%Z = 3%Z)) by done.
      rewrite !Qnat_S. ring.
    + rewrite prize_second.
      rewrite (decide_False (P := 2%Z = 1%Z)), (decide_True (P := 2%Z = 2%Z)),
        (decide_False (P := 2%Z = 3%Z)) by done.
      rewrite !Qnat_S. ring.
    + rewrite prize_third.
      rewrite (decide_False (P := 3%Z = 1%Z)), (decide_False (P := 3%Z = 2%Z)),
        (decide_True (P := 3%Z = 3%Z)) by done.
      rewrite !Qnat_S. ring.
    + rewrite prize_other by done.
      rewrite !decide_False by done. ring.
Qed.

Lemma results_df_prizes es :
  Forall (λ r, Result.PRIZE_MONEY r = prize (total_pot es) (Result.POSITION r))
         (results_df es).
Proof.
  apply Forall_forall. intros r Hr. apply elem_of_results_df in Hr.
  by destruct Hr as (e & _ & ->).
Qed.

Lemma podium_share_le_1 rs :
  (count_position 1 rs ≤ 1)%nat → (count_position 2 rs ≤ 1)%nat →
  (count_position 3 rs ≤ 1)%nat → 0 <= podium_share rs <= 1.
Proof.
  unfold podium_share. intros H1 H2 H3.
  assert (∀ n, (n ≤ 1)%nat → 0 <= Qnat n <= 1) as Hn.
  { intros [|[|n]] Hle; [| |lia]; unfold Qnat, Qle; cbn; lia. }
  apply Hn in H1, H2, H3. clear Hn.
  generalize dependent (Qnat (count_position 1 rs)).
  generalize dependent (Qnat (count_position 2 rs)).
  generalize dependent (Qnat (count_position 3 rs)).
  intros c3 H3 c2 H2 c1 H1. lra.
Qed.

(** C1, as the code has it.  With a fee that is not negative, the prizes
    of a race add up to at most the pot (the sum of the FEE column of its
    RaceEntry rows) whenever each of the positions 1, 2 and 3 is held by
    at most one entry. *)
Theorem prizes_within_pot_without_podium_ties
    new_id now distance fee db race_id db' es rs :
  start_race new_id now distance fee db = (Some race_id, db') →
  0 <= fee →
  appended (RACE_ENTRIES db) (RACE_ENTRIES db') es →
  appended (RACE_RESULTS db) (RACE_RESULTS db') rs →
  (count_position 1 rs ≤ 1)%nat →
  (count_position 2 rs ≤ 1)%nat →
  (count_position 3 rs ≤ 1)%nat →
  Qsum (Result.PRIZE_MONEY <$> rs) <= total_pot es.
Proof.
  intros Hrun Hfee Hes Hrs H1 H2 H3.
  destruct (start_race_cases new_id now distance fee db)
    as [[_ Hr]|[_ [rid Hr]]]; rewrite Hr in Hrun; [done|].
  injection Hrun as _ <-. unfold committed_state, appended in Hes, Hrs.
  cbn [RACE_ENTRIES RACE_RESULTS] in Hes, Hrs.
  apply app_inv_head in Hes, Hrs. subst rs.
  set (es0 := entries_df rid distance fee (select_eligible fee db)) in *.
  subst es.
  rewrite (prize_total (total_pot es0)) by apply results_df_prizes.
  pose proof (podium_share_le_1 _ H1 H2 H3) as [Hlo Hhi].
  assert (0 <= total_pot es0) as Hpot.
  { unfold total_pot. rewrite Qsum_fees by apply entries_df_fee.
    apply Qmult_le_0_compat; [done|apply Qnat_nonneg]. }
  generalize dependent (podium_share (results_df es0)).
  generalize dependent (total_pot es0). clear. intros pot Hpot share Hlo Hhi.
  rewrite <- (Qmult_1_l pot) at 2. rewrite (Qmult_comm pot share).
  by apply Qmult_le_compat_r.
Qed.

Lemma prizes_within_pot_without_podium_ties_witness :
  let run := start_race 7 100 1000 400 two_teams in
  let es := RACE_ENTRIES run.2 in
  let rs := RACE_RESULTS run.2 in
  run = (Some 7%Z, run.2)
  ∧ 0 <= 400
  ∧ appended (RACE_ENTRIES two_teams) (RACE_ENTRIES run.2) es
  ∧ appended (RACE_RESULTS two_teams) (RACE_RESULTS run.2) rs
  ∧ (count_position 1 rs ≤ 1)%nat
  ∧ (count_position 2 rs ≤ 1)%nat
  ∧ (count_position 3 rs ≤ 1)%nat
  ∧ Qsum (Result.PRIZE_MONEY <$> rs) <= total_pot es.
Proof.
  cbv zeta.
  assert (start_race 7 100 1000 400 two_teams
          = (Some 7%Z, (start_race 7 100 1000 400 two_teams).2)) as Hrun
    by (vm_compute; reflexivity).
  assert (0 <= 400) as Hfee by (unfold Qle; cbn; lia).
  assert (appended (RACE_ENTRIES two_teams)
            (RACE_ENTRIES (start_race 7 100 1000 400 two_teams).2)
            (RACE_ENTRIES (start_race 7 100 1000 400 two_teams).2)) as Hes
    by (vm_compute; reflexivity).
  assert (appended (RACE_RESULTS two_teams)
            (RACE_RESULTS (start_race 7 100 1000 400 two_teams).2)
            (RACE_RESULTS (start_race 7 100 1000 400 two_teams).2)) as Hrs
    by (vm_compute; reflexivity).
  assert (count_position 1
            (RACE_RESULTS (start_race 7 100 1000 400 two_teams).2) ≤ 1)%nat
    as H1 by (vm_compute; lia).
  assert (count_position 2
            (RACE_RESULTS (start_race 7 100 1000 400 two_teams).2) ≤ 1)%nat
    as H2 by (vm_compute; lia).
  assert (count_position 3
            (RACE_RESULTS (start_race 7 100 1000 400 two_teams).2) ≤ 1)%nat
    as H3 by (vm_compute; lia).
  repeat (split; [assumption|]).
  exact (prizes_within_pot_without_podium_ties
           7 100 1000 400 two_teams 7 _ _ _ Hrun Hfee Hes Hrs H1 H2 H3).
Defined.

(** C1 as stated fails: with two cars tied at position 2 and a single
    winner, the three prizes are 150, 90 and 90 out of a pot of 300, and
    the budgets of the three teams grow from 3000 to 3030 in total. *)
Lemma tied_runners_up_overpaid :
  let run := start_race 7 100 1000 100 tied_runners_up in
  let es := RACE_ENTRIES run.2 in
  let rs := RACE_RESULTS run.2 in
  run.1 = Some 7%Z
  ∧ length (select_eligible 100 tied_runners_up) = 3%nat
  ∧ Result.POSITION <$> rs = [1; 2; 2]%Z
  ∧ count_position 1 rs = 1%nat
  ∧ total_pot es == 300
  ∧ Qsum (Result.PRIZE_MONEY <$> rs) == 330
  ∧ ¬ Qsum (Result.PRIZE_MONEY <$> rs) <= total_pot es
  ∧ ∃ a b c,
      TEAMS run.2 !! 1%Z = Some a ∧ TEAMS run.2 !! 2%Z = Some b
      ∧ TEAMS run.2 !! 3%Z = Some c
      ∧ Team.BUDGET a + Team.BUDGET b + Team.BUDGET c == 3030.
Proof.
  cbv zeta. repeat split; try (vm_compute; reflexivity).
  - vm_compute. intros H. by apply H.
  - eexists _, _, _. repeat split; try (vm_compute; reflexivity).
Qed.

(** Why the fee must not be negative above: a negative fee makes the pot
    negative, and the prizes, being fractions of it, lie above it. *)
Example negative_fee_prizes_above_pot :
  let run := start_race 7 100 1000 (-100) two_teams in
  run.1 = Some 7%Z
  ∧ total_pot (RACE_ENTRIES run.2) == -200
  ∧ Qsum (Result.PRIZE_MONEY <$> RACE_RESULTS run.2) == -160.
Proof. cbv zeta. repeat split; vm_compute; reflexivity. Qed.

(** * Further properties of [start_race] *)

Lemma start_race_Some_inv new_id now distance fee db race_id db' :
  start_race new_id now distance fee db = (Some race_id, db') →
  select_eligible fee db ≠ []
  ∧ select_latest_race_id (insert_race_event new_id now distance db)
    = Some race_id
  ∧ db' = committed_state new_id now race_id distance fee db.
Proof.
  intros Hrun. destruct (select_eligible fee db) as [|r df] eqn:Edf.
  - destruct (start_race_aborts new_id now distance fee db Edf) as [_ H].
    rewrite H in Hrun. done.
  - destruct (start_race_commits new_id now distance fee db)
      as (rid & Hid & H); [by rewrite Edf|].
    rewrite H in Hrun. injection Hrun as -> <-. done.
Qed.

Lemma some_car_eligible_iff fee db :
  select_eligible fee db ≠ [] ↔ ∃ c, c ∈ CARS db ∧ eligible fee db c.
Proof.
  split.
  - intros Hne. destruct (select_eligible fee db) as [|r df] eqn:Edf; [done|].
    assert (r ∈ select_eligible fee db) as Hr
      by (rewrite Edf; apply list_elem_of_here).
    apply elem_of_select_eligible in Hr.
    destruct Hr as (c & t & Hc & Et & Hfee & _).
    exists c. split; [done|]. by exists t.
  - intros (c & Hc & He) Hdf.
    by apply (no_row_no_eligible_car fee db Hdf c Hc).
Qed.




(** ** The race id *)

Lemma latest_event_max evs m :
  latest_event evs = Some m →
  m ∈ evs
  ∧ ∀ e, e ∈ evs → (RaceEvent.STARTED_AT e ≤ RaceEvent.STARTED_AT m)%Z.
Proof.
  unfold latest_event. revert m.
  induction evs as [|x evs IH]; intros m; cbn [foldr]; [done|].
  destruct (foldr _ None evs) as [m'|] eqn:Efold.
  - destruct (IH m' eq_refl) as [Hin Hmax].
    destruct (Z.ltb_spec (RaceEvent.STARTED_AT m') (RaceEvent.STARTED_AT x));
      intros [= <-].
    + split; [apply list_elem_of_here|]. intros e He.
      apply elem_of_cons in He. destruct He as [->|He]; [lia|].
      specialize (Hmax e He). lia.
    + split; [by apply list_elem_of_further|]. intros e He.
      apply elem_of_cons in He. destruct He as [->|He]; [lia|].
      by apply Hmax.
  - intros [= <-]. destruct evs as [|y evs].
    + split; [apply list_elem_of_here|]. intros e He.
      apply list_elem_of_singleton in He. by subst.
    + exfalso. cbn [foldr] in Efold.
      destruct (foldr _ None evs); [case_match|]; done.
Qed.

Lemma race_id_is_latest new_id now distance fee db race_id db' :
  start_race new_id now distance fee db = (Some race_id, db') →
  ∃ m, m ∈ RACE_EVENTS db ++ [new_event new_id now distance]
       ∧ RaceEvent.RACE_ID m = race_id
       ∧ ∀ e, e ∈ RACE_EVENTS db ++ [new_event new_id now distance] →
              (RaceEvent.STARTED_AT e ≤ RaceEvent.STARTED_AT m)%Z.
Proof.
  intros Hrun. apply start_race_Some_inv in Hrun. destruct Hrun as (_ & Hid & _).
  unfold select_latest_race_id in Hid. cbn [RACE_EVENTS insert_race_event] in Hid.
  destruct (latest_event _) as [m|] eqn:Em; [|done].
  injection Hid as <-. apply latest_event_max in Em. destruct Em as [Hin Hmax].
  by exists m.
Qed.

(** X2. When the new event is stamped later than every event already in
    RACE_EVENTS, the id the race returns is the id of the event it has
    just inserted. *)
Theorem race_id_is_new_when_latest new_id now distance fee db race_id db' :
  start_race new_id now distance fee db = (Some race_id, db') →
  (∀ e, e ∈ RACE_EVENTS db → (RaceEvent.STARTED_AT e < now)%Z) →
  race_id = new_id.
Proof.
  intros Hrun Hold.
  destruct (race_id_is_latest _ _ _ _ _ _ _ Hrun) as (m & Hin & <- & Hmax).
  apply elem_of_app in Hin. destruct Hin as [Hin|Hin].
  - specialize (Hold m Hin).
    specialize (Hmax (new_event new_id now distance)).
    cbn in Hmax. rewrite elem_of_app, list_elem_of_singleton in Hmax.
    specialize (Hmax (or_intror eq_refl)). lia.
  - apply list_elem_of_singleton in Hin. by subst.
Qed.

(** X3. The id comes from the most recent STARTED_AT, not from the insert:
    when an existing event is stamped later than the new one, the race
    returns the id of such an older event and files all its entries and
    results under that id. *)
Theorem race_id_is_stale_behind_later_event
    new_id now distance fee db race_id db' :
  start_race new_id now distance fee db = (Some race_id, db') →
  (∃ e, e ∈ RACE_EVENTS db ∧ (now < RaceEvent.STARTED_AT e)%Z) →
  (∃ old, old ∈ RACE_EVENTS db ∧ RaceEvent.RACE_ID old = race_id
          ∧ (now < RaceEvent.STARTED_AT old)%Z)
  ∧ ∃ es rs,
      appended (RACE_ENTRIES db) (RACE_ENTRIES db') es
      ∧ appended (RACE_RESULTS db) (RACE_RESULTS db') rs
      ∧ es ≠ []
      ∧ Forall (λ e, Entry.RACE_ID e = race_id) es
      ∧ Forall (λ r, Result.RACE_ID r = race_id) rs.
Proof.
  intros Hrun (e & He & Hlate).
  destruct (race_id_is_latest _ _ _ _ _ _ _ Hrun) as (m & Hin & Hid & Hmax).
  split.
  - exists m. assert (now < RaceEvent.STARTED_AT m)%Z as Hm.
    { specialize (Hmax e). rewrite elem_of_app in Hmax.
      specialize (Hmax (or_introl He)). lia. }
    split; [|done]. apply elem_of_app in Hin. destruct Hin as [Hin|Hin]; [done|].
    apply list_elem_of_singleton in Hin. subst m. cbn in Hm. lia.
  - apply start_race_Some_inv in Hrun. destruct Hrun as (Hdf & _ & ->).
    unfold committed_state. cbn [RACE_ENTRIES RACE_RESULTS].
    eexists _, _. split; [reflexivity|]. split; [reflexivity|].
    split; [|split].
    + unfold entries_df. by destruct (select_eligible fee db).
    + apply Forall_forall. intros x Hx. apply elem_of_entries_df in Hx.
      by destruct Hx as (r & _ & ->).
    + apply Forall_forall. intros x Hx. apply elem_of_results_df in Hx.
      destruct Hx as (x' & Hx' & ->). apply elem_of_entries_df in Hx'.
      by destruct Hx' as (r & _ & ->).
Qed.

Lemma race_id_is_new_when_latest_witness :
  let run := start_race 7 300 1000 400 after_event_3 in
  run = (Some 7%Z, run.2)
  ∧ (∀ e, e ∈ RACE_EVENTS after_event_3 → (RaceEvent.STARTED_AT e < 300)%Z)
  ∧ 7%Z = 7%Z.
Proof.
  assert (start_race 7 300 1000 400 after_event_3
          = (Some 7%Z, (start_race 7 300 1000 400 after_event_3).2)) as Hrun
    by (vm_compute; reflexivity).
  assert (∀ e, e ∈ RACE_EVENTS after_event_3
               → (RaceEvent.STARTED_AT e < 300)%Z) as Hold.
  { intros e He. apply list_elem_of_singleton in He. subst e. cbn. lia. }
  split; [exact Hrun|]. split; [exact Hold|].
  exact (race_id_is_new_when_latest 7 300 1000 400 after_event_3 7 _ Hrun Hold).
Defined.

Lemma race_id_is_stale_behind_later_event_witness :
  let run := start_race 7 100 1000 400 after_event_3 in
  run = (Some 3%Z, run.2)
  ∧ (∃ e, e ∈ RACE_EVENTS after_event_3 ∧ (100 < RaceEvent.STARTED_AT e)%Z)
  ∧ (∃ old, old ∈ RACE_EVENTS after_event_3 ∧ RaceEvent.RACE_ID old = 3%Z
            ∧ (100 < RaceEvent.STARTED_AT old)%Z)
  ∧ ∃ es rs,
      appended (RACE_ENTRIES after_event_3) (RACE_ENTRIES run.2) es
      ∧ appended (RACE_RESULTS after_event_3) (RACE_RESULTS run.2) rs
      ∧ es ≠ []
      ∧ Forall (λ e, Entry.RACE_ID e = 3%Z) es
      ∧ Forall (λ r, Result.RACE_ID r = 3%Z) rs.
Proof.
  assert (start_race 7 100 1000 400 after_event_3
          = (Some 3%Z, (start_race 7 100 1000 400 after_event_3).2)) as Hrun
    by (vm_compute; reflexivity).
  assert (∃ e, e ∈ RACE_EVENTS after_event_3
               ∧ (100 < RaceEvent.STARTED_AT e)%Z) as Hlate.
  { exists (RaceEvent.mk 3 500 200). split; [apply list_elem_of_here|].
    cbn. lia. }
  split; [exact Hrun|]. split; [exact Hlate|].
  exact (race_id_is_stale_behind_later_event
           7 100 1000 400 after_event_3 3 _ Hrun Hlate).
Defined.

(** ** What a race leaves alone *)

Lemma deduct_teams_names fee ids (teams : gmap Z Team.t) k :
  Team.TEAM_NAME <$> deduct_teams fee ids teams !! k
  = Team.TEAM_NAME <$> teams !! k.
Proof.
  unfold deduct_teams. revert teams.
  induction ids as [|i ids IH]; intros teams; cbn [foldl]; [done|].
  rewrite IH. destruct (decide (k = i)) as [->|Hne].
  - rewrite lookup_alter_eq. by destruct (teams !! i).
  - by rewrite lookup_alter_ne.
Qed.

Lemma credit_teams_names rs (teams : gmap Z Team.t) k :
  Team.TEAM_NAME <$> credit_teams rs teams !! k
  = Team.TEAM_NAME <$> teams !! k.
Proof.
  unfold credit_teams. revert teams.
  induction rs as [|r rs IH]; intros teams; cbn [foldl]; [done|].
  rewrite IH. case_decide; [|done].
  destruct (decide (k = Result.TEAM_ID r)) as [->|Hne].
  - rewrite lookup_alter_eq. by destruct (teams !! Result.TEAM_ID r).
  - by rewrite lookup_alter_ne.
Qed.

Lemma results_df_length es : length (results_df es) = length es.
Proof. rewrite results_df_rows. apply length_fmap. Qed.

(** X4. A race never adds, removes or renames a team and never touches
    CARS; it adds exactly one RaceEvent, carrying the distance, and one
    result for every entry, all under the id it returns. *)
Theorem race_keeps_roster new_id now distance fee db race_id db' :
  start_race new_id now distance fee db = (Some race_id, db') →
  CARS db' = CARS db
  ∧ RACE_EVENTS db' = RACE_EVENTS db ++ [RaceEvent.mk new_id distance now]
  ∧ (∀ tid, Team.TEAM_NAME <$> TEAMS db' !! tid
            = Team.TEAM_NAME <$> TEAMS db !! tid)
  ∧ ∃ es rs,
      appended (RACE_ENTRIES db) (RACE_ENTRIES db') es
      ∧ appended (RACE_RESULTS db) (RACE_RESULTS db') rs
      ∧ length rs = length es
      ∧ Forall (λ e, Entry.RACE_ID e = race_id) es
      ∧ Forall (λ r, Result.RACE_ID r = race_id) rs.
Proof.
  intros Hrun. apply start_race_Some_inv in Hrun.
  destruct Hrun as (_ & _ & ->). unfold committed_state.
  cbn [CARS RACE_EVENTS TEAMS RACE_ENTRIES RACE_RESULTS].
  split; [done|]. split; [done|]. split.
  - intros tid. by rewrite credit_teams_names, deduct_teams_names.
  - eexists _, _. split; [reflexivity|]. split; [reflexivity|].
    split; [apply results_df_length|]. split.
    + apply Forall_forall. intros x Hx. apply elem_of_entries_df in Hx.
      by destruct Hx as (r & _ & ->).
    + apply Forall_forall. intros x Hx. apply elem_of_results_df in Hx.
      destruct Hx as (x' & Hx' & ->). apply elem_of_entries_df in Hx'.
      by destruct Hx' as (r & _ & ->).
Qed.

Lemma race_keeps_roster_witness :
  let run := start_race 7 100 1000 400 two_teams in
  run = (Some 7%Z, run.2)
  ∧ CARS run.2 = CARS two_teams
  ∧ RACE_EVENTS run.2 = RACE_EVENTS two_teams ++ [RaceEvent.mk 7 1000 100].
Proof.
  assert (start_race 7 100 1000 400 two_teams
          = (Some 7%Z, (start_race 7 100 1000 400 two_teams).2)) as Hrun
    by (vm_compute; reflexivity).
  split; [exact Hrun|].
  destruct (race_keeps_roster 7 100 1000 400 two_teams 7 _ Hrun)
    as (Hcars & Hevs & _).
  split; [exact Hcars|exact Hevs].
Defined.

(** ** The ledger of a team *)

Lemma credited_cons_hit tid r rs :
  Result.TEAM_ID r = tid → 0 < Result.PRIZE_MONEY r →
  credited tid (r :: rs) = Result.PRIZE_MONEY r + credited tid rs.
Proof. intros Hid Hp. unfold credited. by rewrite filter_cons_True. Qed.

Lemma credited_cons_miss tid r rs :
  ¬ (Result.TEAM_ID r = tid ∧ 0 < Result.PRIZE_MONEY r) →
  credited tid (r :: rs) = credited tid rs.
Proof. intros Hno. unfold credited. by rewrite filter_cons_False. Qed.

Lemma credited_nonneg tid rs : 0 <= credited tid rs.
Proof.
  induction rs as [|r rs IH]; [unfold credited, Qle; cbn; lia|].
  destruct (decide (Result.TEAM_ID r = tid ∧ 0 < Result.PRIZE_MONEY r))
    as [[Hid Hp]|Hno].
  - rewrite credited_cons_hit by done.
    generalize dependent (credited tid rs).
    generalize dependent (Result.PRIZE_MONEY r). clear. intros p Hp c Hc. lra.
  - by rewrite credited_cons_miss.
Qed.

Lemma credit_teams_None rs (teams : gmap Z Team.t) k :
  teams !! k = None → credit_teams rs teams !! k = None.
Proof.
  intros Hk. pose proof (credit_teams_names rs teams k) as H.
  rewrite Hk in H. by destruct (credit_teams rs teams !! k).
Qed.

Lemma credit_teams_Some rs (teams : gmap Z Team.t) k t :
  teams !! k = Some t →
  ∃ t', credit_teams rs teams !! k = Some t'
        ∧ Team.TEAM_NAME t' = Team.TEAM_NAME t
        ∧ Team.BUDGET t' == Team.BUDGET t + credited k rs.
Proof.
  unfold credit_teams. revert teams t.
  induction rs as [|r rs IH]; intros teams t Hk; cbn [foldl].
  - exists t. split; [done|]. split; [done|].
    change (credited k []) with 0. ring.
  - destruct (decide (0 < Result.PRIZE_MONEY r)) as [Hp|Hp].
    + destruct (decide (Result.TEAM_ID r = k)) as [Hid|Hid].
      * destruct (IH (alter (add_to_budget (Result.PRIZE_MONEY r))
                            (Result.TEAM_ID r) teams)
                     (add_to_budget (Result.PRIZE_MONEY r) t))
          as (t' & Ht' & Hname & Hbud).
        { rewrite Hid, lookup_alter_eq, Hk. done. }
        exists t'. split; [done|]. split; [done|].
        rewrite credited_cons_hit by done. rewrite Hbud.
        cbn [add_to_budget Team.BUDGET]. ring.
      * destruct (IH (alter (add_to_budget (Result.PRIZE_MONEY r))
                            (Result.TEAM_ID r) teams) t)
          as (t' & Ht' & Hname & Hbud).
        { by rewrite lookup_alter_ne. }
        exists t'. split; [done|]. split; [done|].
        rewrite credited_cons_miss; [done|]. by intros [? _].
    + destruct (IH teams t Hk) as (t' & Ht' & Hname & Hbud).
      exists t'. split; [done|]. split; [done|].
      rewrite credited_cons_miss; [done|]. by intros [_ ?].
Qed.

(** X5. After a race the budget of a team that entered a car is its budget
    from before, less the fee once, plus those prizes of its cars that
    are greater than zero. *)
Theorem entrant_budget_ledger new_id now distance fee db race_id db' tid t :
  start_race new_id now distance fee db = (Some race_id, db') →
  TEAMS db !! tid = Some t →
  owns_eligible_car fee db tid →
  ∃ rs t',
    appended (RACE_RESULTS db) (RACE_RESULTS db') rs
    ∧ TEAMS db' !! tid = Some t'
    ∧ Team.BUDGET t' == Team.BUDGET t - fee + credited tid rs.
Proof.
  intros Hrun Et Hown. apply start_race_Some_inv in Hrun.
  destruct Hrun as (_ & _ & ->). unfold committed_state.
  cbn [TEAMS RACE_RESULTS].
  set (df := select_eligible fee db).
  set (rs := results_df (entries_df race_id distance fee df)).
  destruct (credit_teams_Some rs
              (deduct_teams fee (unique (Row.TEAM_ID <$> df)) (TEAMS db))
              tid (sub_from_budget fee t)) as (t' & Ht' & _ & Hbud).
  { rewrite deduct_teams_lookup by apply NoDup_unique.
    rewrite decide_True by (by apply elem_of_unique, eligible_team_ids).
    by rewrite Et. }
  exists rs, t'. split; [reflexivity|]. split; [exact Ht'|]. exact Hbud.
Qed.

Lemma entrant_budget_ledger_witness :
  let run := start_race 7 100 1000 400 two_teams in
  run = (Some 7%Z, run.2)
  ∧ TEAMS two_teams !! 1%Z = Some (Team.mk "A" 500)
  ∧ owns_eligible_car 400 two_teams 1
  ∧ ∃ rs t',
      appended (RACE_RESULTS two_teams) (RACE_RESULTS run.2) rs
      ∧ TEAMS run.2 !! 1%Z = Some t'
      ∧ Team.BUDGET t' == 500 - 400 + credited 1 rs.
Proof.
  assert (start_race 7 100 1000 400 two_teams
          = (Some 7%Z, (start_race 7 100 1000 400 two_teams).2)) as Hrun
    by (vm_compute; reflexivity).
  assert (TEAMS two_teams !! 1%Z = Some (Team.mk "A" 500)) as Et
    by reflexivity.
  assert (owns_eligible_car 400 two_teams 1) as Hown.
  { apply eligible_team_ids. vm_compute. apply list_elem_of_here. }
  split; [exact Hrun|]. split; [exact Et|]. split; [exact Hown|].
  exact (entrant_budget_ledger 7 100 1000 400 two_teams 7 _ 1 _ Hrun Et Hown).
Defined.

(** X6. No race makes a budget negative: if every budget is at least zero
    before [start_race], every budget is at least zero after it, for any
    distance and any fee. *)
Theorem race_keeps_budgets_nonneg new_id now distance fee db :
  budgets_nonneg db →
  budgets_nonneg (start_race new_id now distance fee db).2.
Proof.
  intros Hnn.
  destruct (start_race_cases new_id now distance fee db)
    as [[_ ->]|[_ [rid ->]]]; cbn [snd]; [done|].
  intros tid t'. unfold committed_state. cbn [TEAMS].
  set (df := select_eligible fee db).
  set (rs := results_df (entries_df rid distance fee df)).
  set (mid := deduct_teams fee (unique (Row.TEAM_ID <$> df)) (TEAMS db)).
  intros Ht'. destruct (mid !! tid) as [m|] eqn:Em.
  - destruct (credit_teams_Some rs mid tid m Em) as (t'' & Ht'' & _ & Hbud).
    rewrite Ht' in Ht''. injection Ht'' as <-.
    assert (0 <= Team.BUDGET m) as Hm.
    { unfold mid in Em. rewrite deduct_teams_lookup in Em by apply NoDup_unique.
      destruct (decide (tid ∈ unique (Row.TEAM_ID <$> df))) as [Hin|Hin].
      - apply elem_of_unique, eligible_team_ids in Hin.
        destruct Hin as (c & t & _ & _ & Et & Hfee).
        rewrite Et in Em. injection Em as <-.
        cbn [sub_from_budget Team.BUDGET]. clear -Hfee. lra.
      - by apply (Hnn tid). }
    pose proof (credited_nonneg tid rs) as Hc.
    generalize dependent (credited tid rs).
    generalize dependent (Team.BUDGET m).
    generalize dependent (Team.BUDGET t'). clear. intros b' bm Hm c Hb Hc. lra.
  - by rewrite (credit_teams_None rs mid tid Em) in Ht'.
Qed.

Lemma race_keeps_budgets_nonneg_witness :
  budgets_nonneg two_teams
  ∧ budgets_nonneg (start_race 7 100 1000 400 two_teams).2.
Proof.
  assert (budgets_nonneg two_teams) as Hnn.
  { intros tid t Ht. unfold two_teams in Ht. cbn [TEAMS] in Ht.
    apply lookup_insert_Some in Ht.
    destruct Ht as [[_ <-]|[_ Ht]]; [unfold Qle; cbn; lia|].
    apply lookup_insert_Some in Ht.
    destruct Ht as [[_ <-]|[_ Ht]]; [unfold Qle; cbn; lia|].
    by rewrite lookup_empty in Ht. }
  split; [exact Hnn|].
  exact (race_keeps_budgets_nonneg 7 100 1000 400 two_teams Hnn).
Defined.

(** ** Positions and payouts *)

Lemma count_lt_lt_length x xs :
  x ∈ xs → (count_lt x xs < length xs)%nat.
Proof.
  intros Hx. unfold count_lt. eapply length_filter_lt; [exact Hx|].
  apply Qlt_irrefl.
Qed.

Lemma exists_least (xs : list Q) :
  xs ≠ [] → ∃ x, x ∈ xs ∧ Forall (λ y, x <= y) xs.
Proof.
  induction xs as [|a xs IH]; [done|]. intros _.
  destruct xs as [|b xs].
  - exists a. split; [apply list_elem_of_here|].
    constructor; [apply Qle_refl|constructor].
  - destruct IH as (m & Hm & Hall); [done|].
    destruct (Qlt_le_dec a m) as [Ham|Hma].
    + exists a. split; [apply list_elem_of_here|].
      constructor; [apply Qle_refl|].
      eapply Forall_impl; [exact Hall|]. intros y Hy. cbn in Hy. lra.
    + exists m. split; [by apply list_elem_of_further|]. by constructor.
Qed.

(** X7. Every position lies between 1 and the number of cars in the race,
    and at least one car is placed first. *)
Theorem positions_in_range_with_a_winner
    new_id now distance fee db race_id db' :
  start_race new_id now distance fee db = (Some race_id, db') →
  ∃ rs,
    appended (RACE_RESULTS db) (RACE_RESULTS db') rs
    ∧ Forall (λ r, (1 ≤ Result.POSITION r ≤ Z.of_nat (length rs))%Z) rs
    ∧ ∃ r, r ∈ rs ∧ Result.POSITION r = 1%Z.
Proof.
  intros Hrun. apply start_race_Some_inv in Hrun.
  destruct Hrun as (Hdf & _ & ->). unfold committed_state.
  cbn [RACE_RESULTS].
  set (es := entries_df race_id distance fee (select_eligible fee db)).
  exists (results_df es). split; [reflexivity|].
  rewrite results_df_rows, length_fmap. split.
  - apply Forall_fmap, Forall_forall. intros e He. cbn.
    pose proof (count_lt_lt_length (Entry.TIME_TAKEN e)
                  (Entry.TIME_TAKEN <$> es)
                  (list_elem_of_fmap_2 _ _ _ He)) as Hlt.
    rewrite length_fmap in Hlt. lia.
  - destruct (exists_least (Entry.TIME_TAKEN <$> es)) as (x & Hx & Hall).
    { unfold es, entries_df. by destruct (select_eligible fee db). }
    apply list_elem_of_fmap in Hx. destruct Hx as (e & -> & He).
    exists (result_of es e). split; [by apply list_elem_of_fmap_2|].
    cbn. by rewrite (count_lt_zero _ _ Hall).
Qed.

Lemma positions_in_range_with_a_winner_witness :
  let run := start_race 7 100 1000 100 tied_runners_up in
  run = (Some 7%Z, run.2)
  ∧ ∃ rs,
      appended (RACE_RESULTS tied_runners_up) (RACE_RESULTS run.2) rs
      ∧ Forall (λ r, (1 ≤ Result.POSITION r ≤ Z.of_nat (length rs))%Z) rs
      ∧ ∃ r, r ∈ rs ∧ Result.POSITION r = 1%Z.
Proof.
  assert (start_race 7 100 1000 100 tied_runners_up
          = (Some 7%Z, (start_race 7 100 1000 100 tied_runners_up).2)) as H
    by (vm_compute; reflexivity).
  split; [exact H|].
  exact (positions_in_range_with_a_winner 7 100 1000 100 tied_runners_up 7 _ H).
Defined.

(** X8. The prizes of a race add up to the pot times
    [0.5 * n1 + 0.3 * n2 + 0.2 * n3], where [n1], [n2] and [n3] are the
    numbers of cars at positions 1, 2 and 3; with exactly one car at each
    of the three positions the whole pot is paid out. *)
Theorem payout_is_pot_times_podium_share
    new_id now distance fee db race_id db' :
  start_race new_id now distance fee db = (Some race_id, db') →
  ∃ es rs,
    appended (RACE_ENTRIES db) (RACE_ENTRIES db') es
    ∧ appended (RACE_RESULTS db) (RACE_RESULTS db') rs
    ∧ Qsum (Result.PRIZE_MONEY <$> rs)
      == total_pot es
         * (0.5 * Qnat (count_position 1 rs) + 0.3 * Qnat (count_position 2 rs)
            + 0.2 * Qnat (count_position 3 rs))
    ∧ (count_position 1 rs = 1%nat → count_position 2 rs = 1%nat →
       count_position 3 rs = 1%nat →
       Qsum (Result.PRIZE_MONEY <$> rs) == total_pot es).
Proof.
  intros Hrun. apply start_race_Some_inv in Hrun.
  destruct Hrun as (_ & _ & ->). unfold committed_state.
  cbn [RACE_ENTRIES RACE_RESULTS].
  set (es := entries_df race_id distance fee (select_eligible fee db)).
  exists es, (results_df es). split; [reflexivity|]. split; [reflexivity|].
  pose proof (prize_total (total_pot es) (results_df es)
                (results_df_prizes es)) as Hsum.
  unfold podium_share in Hsum. split; [exact Hsum|].
  intros H1 H2 H3. rewrite Hsum, H1, H2, H3.
  change (Qnat 1) with 1. ring.
Qed.

Lemma payout_is_pot_times_podium_share_witness :
  let run := start_race 7 100 1000 100 tied_runners_up in
  run = (Some 7%Z, run.2)
  ∧ ∃ es rs,
      appended (RACE_ENTRIES tied_runners_up) (RACE_ENTRIES run.2) es
      ∧ appended (RACE_RESULTS tied_runners_up) (RACE_RESULTS run.2) rs
      ∧ Qsum (Result.PRIZE_MONEY <$> rs)
        == total_pot es
           * (0.5 * Qnat (count_position 1 rs)
              + 0.3 * Qnat (count_position 2 rs)
              + 0.2 * Qnat (count_position 3 rs))
      ∧ (count_position 1 rs = 1%nat → count_position 2 rs = 1%nat →
         count_position 3 rs = 1%nat →
         Qsum (Result.PRIZE_MONEY <$> rs) == total_pot es).
Proof.
  assert (start_race 7 100 1000 100 tied_runners_up
          = (Some 7%Z, (start_race 7 100 1000 100 tied_runners_up).2)) as H
    by (vm_compute; reflexivity).
  split; [exact H|].
  exact (payout_is_pot_times_podium_share 7 100 1000 100 tied_runners_up 7 _ H).
Defined.

Lemma prize_bounds pot pos : 0 <= pot → 0 <= prize pot pos <= pot * 0.5.
Proof.
  intros Hpot.
  destruct (Z.eq_dec pos 1%Z) as [->|H1];
    [|destruct (Z.eq_dec pos 2%Z) as [->|H2];
      [|destruct (Z.eq_dec pos 3%Z) as [->|H3]]].
  - rewrite prize_first. lra.
  - rewrite prize_second. lra.
  - rewrite prize_third. lra.
  - rewrite prize_other by done. lra.
Qed.

(** X9. With a fee that is not negative no prize is negative and no car
    wins more than half of the pot. *)
Theorem prizes_between_zero_and_half_pot
    new_id now distance fee db race_id db' :
  start_race new_id now distance fee db = (Some race_id, db') →
  0 <= fee →
  ∃ es rs,
    appended (RACE_ENTRIES db) (RACE_ENTRIES db') es
    ∧ appended (RACE_RESULTS db) (RACE_RESULTS db') rs
    ∧ Forall (λ r, 0 <= Result.PRIZE_MONEY r <= total_pot es * 0.5) rs.
Proof.
  intros Hrun Hfee. apply start_race_Some_inv in Hrun.
  destruct Hrun as (_ & _ & ->). unfold committed_state.
  cbn [RACE_ENTRIES RACE_RESULTS].
  set (es := entries_df race_id distance fee (select_eligible fee db)).
  exists es, (results_df es). split; [reflexivity|]. split; [reflexivity|].
  assert (0 <= total_pot es) as Hpot.
  { unfold total_pot. rewrite Qsum_fees by apply entries_df_fee.
    apply Qmult_le_0_compat; [done|apply Qnat_nonneg]. }
  apply Forall_forall. intros r Hr. apply elem_of_results_df in Hr.
  destruct Hr as (e & _ & ->). cbn [result_of Result.PRIZE_MONEY].
  by apply prize_bounds.
Qed.

Lemma prizes_between_zero_and_half_pot_witness :
  let run := start_race 7 100 1000 400 two_teams in
  run = (Some 7%Z, run.2)
  ∧ 0 <= 400
  ∧ ∃ es rs,
      appended (RACE_ENTRIES two_teams) (RACE_ENTRIES run.2) es
      ∧ appended (RACE_RESULTS two_teams) (RACE_RESULTS run.2) rs
      ∧ Forall (λ r, 0 <= Result.PRIZE_MONEY r <= total_pot es * 0.5) rs.
Proof.
  assert (start_race 7 100 1000 400 two_teams
          = (Some 7%Z, (start_race 7 100 1000 400 two_teams).2)) as H
    by (vm_compute; reflexivity).
  assert (0 <= 400) as Hfee by (unfold Qle; cbn; lia).
  split; [exact H|]. split; [exact Hfee|].
  exact (prizes_between_zero_and_half_pot 7 100 1000 400 two_teams 7 _ H Hfee).
Defined.

(** * Teams and cars *)

(** ** [add_team] *)

Lemma count_teams_named_pos team_name db :
  (0 < count_teams_named team_name db)%nat ↔ team_name_taken team_name db.
Proof.
  unfold count_teams_named, team_name_taken. split.
  - intros Hpos.
    destruct (map_choose (filter (λ kt : Z * Team.t,
                                    Team.TEAM_NAME kt.2 = team_name)
                                 (TEAMS db))) as (k & t & Hkt).
    { intros Hempty. rewrite Hempty, map_size_empty in Hpos. lia. }
    apply map_lookup_filter_Some in Hkt. destruct Hkt as [Hk Hn].
    by exists k, t.
  - intros (k & t & Hk & Hn).
    assert (filter (λ kt : Z * Team.t, Team.TEAM_NAME kt.2 = team_name)
                   (TEAMS db) !! k = Some t) as Hkt
      by (by apply map_lookup_filter_Some).
    destruct (size _) eqn:Esz; [|lia].
    apply map_size_empty_iff in Esz. rewrite Esz in Hkt.
    by rewrite lookup_empty in Hkt.
Qed.

Lemma add_team_eq new_team_id team_name budget db :
  add_team new_team_id team_name budget db
  = if decide (0 < count_teams_named team_name db)%nat
    then ((false, TeamAlreadyExists team_name), db)
    else ((true, TeamCreated team_name budget),
          insert_team new_team_id team_name budget db).
Proof.
  unfold add_team, add_team_session, mbind, Session_bind, cursor_fetch,
    connect. cbn [working].
  case_decide; reflexivity.
Qed.

(** X10. [add_team] succeeds exactly when no team has the name yet.  It then
    stores the team with the given budget under the generated key and
    changes no other row or table; when the name is taken it reports so
    and changes nothing. *)
Theorem add_team_succeeds_iff_name_free new_team_id team_name budget db :
  let out := add_team new_team_id team_name budget db in
  (out.1.1 = true ↔ ¬ team_name_taken team_name db)
  ∧ (out.1.1 = true →
     out.1.2 = TeamCreated team_name budget
     ∧ TEAMS out.2 !! new_team_id = Some (Team.mk team_name budget)
     ∧ (∀ k, k ≠ new_team_id → TEAMS out.2 !! k = TEAMS db !! k)
     ∧ CARS out.2 = CARS db ∧ RACE_EVENTS out.2 = RACE_EVENTS db
     ∧ RACE_ENTRIES out.2 = RACE_ENTRIES db
     ∧ RACE_RESULTS out.2 = RACE_RESULTS db)
  ∧ (out.1.1 = false →
     out.1.2 = TeamAlreadyExists team_name ∧ out.2 = db).
Proof.
  cbv zeta. rewrite add_team_eq.
  destruct (decide (0 < count_teams_named team_name db)%nat) as [Hpos|Hpos];
    cbn [fst snd].
  - apply count_teams_named_pos in Hpos.
    split; [split; [done|by intros Hfree]|]. split; done.
  - rewrite count_teams_named_pos in Hpos.
    split; [split; done|]. split; [|done]. intros _.
    unfold insert_team. cbn [TEAMS CARS RACE_EVENTS RACE_ENTRIES RACE_RESULTS
                             set_teams].
    split; [done|]. split; [apply lookup_insert_eq|].
    split; [|done]. intros k Hk. by rewrite lookup_insert_ne.
Qed.

Lemma add_team_succeeds_iff_name_free_witness :
  (add_team 3 "Turbo Titans" 45000 two_teams).1.1 = true
  ∧ (add_team 4 "A" 45000 two_teams).1.1 = false
  ∧ ¬ team_name_taken "Turbo Titans" two_teams.
Proof.
  split; [vm_compute; reflexivity|]. split; [vm_compute; reflexivity|].
  apply (add_team_succeeds_iff_name_free 3 "Turbo Titans" 45000 two_teams).
  vm_compute. reflexivity.
Defined.

Lemma add_team_name_taken_after new_team_id team_name budget db :
  team_name_taken team_name (add_team new_team_id team_name budget db).2.
Proof.
  rewrite add_team_eq.
  destruct (decide (0 < count_teams_named team_name db)%nat) as [Hpos|Hpos];
    cbn [snd].
  - by apply count_teams_named_pos.
  - exists new_team_id, (Team.mk team_name budget). split; [|done].
    unfold insert_team. cbn [TEAMS set_teams]. apply lookup_insert_eq.
Qed.

(** X11. Asking twice for the same team name creates one team: whatever the
    first call did, the second reports that the team exists and changes
    nothing. *)
Theorem add_team_twice_adds_once id1 id2 team_name budget1 budget2 db :
  let db1 := (add_team id1 team_name budget1 db).2 in
  add_team id2 team_name budget2 db1
  = ((false, TeamAlreadyExists team_name), db1).
Proof.
  cbv zeta. rewrite (add_team_eq id2).
  rewrite decide_True; [done|].
  apply count_teams_named_pos, add_team_name_taken_after.
Qed.

(** X12. A team is stored under a key that was free, as the schema's key
    generator provides; then [add_team] keeps team names unique, loses no
    team, and keeps budgets at or above zero when the new budget is. *)
Theorem add_team_keeps_invariants new_team_id team_name budget db :
  TEAMS db !! new_team_id = None →
  let db' := (add_team new_team_id team_name budget db).2 in
  (team_names_unique db → team_names_unique db')
  ∧ (∀ k t, TEAMS db !! k = Some t → TEAMS db' !! k = Some t)
  ∧ (cars_have_teams db → cars_have_teams db')
  ∧ (0 <= budget → budgets_nonneg db → budgets_nonneg db').
Proof.
  intros Hfresh. cbv zeta. rewrite add_team_eq.
  destruct (decide (0 < count_teams_named team_name db)%nat) as [Hpos|Hpos];
    cbn [snd]; [done|].
  rewrite count_teams_named_pos in Hpos.
  assert (∀ k t, TEAMS db !! k = Some t
                 → TEAMS (insert_team new_team_id team_name budget db) !! k
                   = Some t) as Hkeep.
  { intros k t Hk. unfold insert_team. cbn [TEAMS set_teams].
    rewrite lookup_insert_ne; [done|]. intros <-. by rewrite Hfresh in Hk. }
  assert (∀ k t, TEAMS (insert_team new_team_id team_name budget db) !! k
                 = Some t
                 → (k = new_team_id ∧ t = Team.mk team_name budget)
                   ∨ (k ≠ new_team_id ∧ TEAMS db !! k = Some t)) as Hinv.
  { intros k t. unfold insert_team. cbn [TEAMS set_teams].
    rewrite lookup_insert_Some. naive_solver. }
  split; [|split; [exact Hkeep|split]].
  - intros Huniq k1 k2 t1 t2 H1 H2 Hname.
    apply Hinv in H1, H2.
    destruct H1 as [[-> ->]|[Hk1 H1]], H2 as [[-> ->]|[Hk2 H2]]; [done| | |].
    + exfalso. apply Hpos. by exists k2, t2.
    + exfalso. apply Hpos. by exists k1, t1.
    + by apply (Huniq k1 k2 t1 t2).
  - intros Hcars c Hc. destruct (Hcars c Hc) as [t Ht].
    exists t. by apply Hkeep.
  - intros Hb Hnn k t Hk. apply Hinv in Hk.
    destruct Hk as [[-> ->]|[_ Hk]]; [done|]. by apply (Hnn k).
Qed.

Lemma add_team_keeps_invariants_witness :
  TEAMS two_teams !! 3%Z = None
  ∧ ∀ k t, TEAMS two_teams !! k = Some t
           → TEAMS (add_team 3 "Turbo Titans" 45000 two_teams).2 !! k
             = Some t.
Proof.
  assert (TEAMS two_teams !! 3%Z = None) as Hfresh by reflexivity.
  split; [exact Hfresh|].
  exact (proj1 (proj2 (add_team_keeps_invariants
                         3 "Turbo Titans" 45000 two_teams Hfresh))).
Defined.

(** ** [add_car] *)

Lemma select_team_id_Some team_name db k :
  select_team_id team_name db = Some k →
  ∃ t, TEAMS db !! k = Some t ∧ Team.TEAM_NAME t = team_name.
Proof.
  unfold select_team_id. intros H.
  destruct (head _) as [[k' t]|] eqn:Ehead; [|done].
  injection H as <-. apply head_Some_elem_of in Ehead.
  apply elem_of_map_to_list, map_lookup_filter_Some in Ehead.
  destruct Ehead as [Hk Hn]. by exists t.
Qed.



Lemma count_cars_named_pos car_name db :
  (0 < count_cars_named car_name db)%nat ↔ car_name_taken car_name db.
Proof.
  unfold count_cars_named, car_name_taken. split.
  - intros Hpos.
    destruct (filter _ (CARS db)) as [|c l] eqn:Ef; [cbn in Hpos; lia|].
    assert (c ∈ filter (λ c, Car.CAR_NAME c = car_name) (CARS db)) as Hc
      by (rewrite Ef; apply list_elem_of_here).
    apply list_elem_of_filter in Hc. destruct Hc as [Hn Hc]. by exists c.
  - intros (c & Hc & Hn).
    assert (c ∈ filter (λ c, Car.CAR_NAME c = car_name) (CARS db)) as Hin
      by (by apply list_elem_of_filter).
    destruct (filter _ (CARS db)); [by apply elem_of_nil in Hin|cbn; lia].
Qed.

Lemma add_car_eq new_car_id car_name speed interval duration team_name db :
  add_car new_car_id car_name speed interval duration team_name db
  = match select_team_id team_name db with
    | None => ((false, NoTeamFound team_name), db)
    | Some team_id =>
        if decide (0 < count_cars_named car_name db)%nat
        then ((false, CarAlreadyExists car_name), db)
        else ((true, CarAdded car_name team_name),
              insert_car new_car_id car_name speed interval duration
                         team_id db)
    end.
Proof.
  unfold add_car, add_car_session, mbind, Session_bind, cursor_fetch,
    connect. cbn [working].
  destruct (select_team_id team_name db); [|reflexivity].
  cbn [working]. case_decide; reflexivity.
Qed.



(** X14. [add_car] keeps every car bound to an existing team and keeps car
    names unique. *)
Theorem add_car_keeps_invariants
    new_car_id car_name speed interval duration team_name db :
  let db' := (add_car new_car_id car_name speed interval duration
                      team_name db).2 in
  (cars_have_teams db → cars_have_teams db')
  ∧ (car_names_unique db → car_names_unique db').
Proof.
  cbv zeta. rewrite add_car_eq.
  destruct (select_team_id team_name db) as [team_id|] eqn:Esel; [|done].
  destruct (decide (0 < count_cars_named car_name db)%nat) as [Hpos|Hpos];
    [done|]. rewrite count_cars_named_pos in Hpos. cbn [snd].
  destruct (select_team_id_Some _ _ _ Esel) as (t & Hk & Hn). split.
  - intros Hcars c Hc. cbn [CARS TEAMS insert_car] in *.
    apply elem_of_app in Hc. destruct Hc as [Hc|Hc]; [by apply Hcars|].
    apply list_elem_of_singleton in Hc. subst c. by exists t.
  - unfold car_names_unique. cbn [CARS insert_car].
    rewrite fmap_app. intros Hnd. apply NoDup_app. split; [done|].
    split; [|apply NoDup_singleton].
    intros name Hin Hnew. cbn in Hnew.
    apply list_elem_of_singleton in Hnew. subst name.
    apply list_elem_of_fmap in Hin. destruct Hin as (c & Hname & Hc).
    apply Hpos. by exists c.
Qed.

Lemma add_car_keeps_invariants_witness :
  car_names_unique two_teams
  ∧ car_names_unique (add_car 9 "Nitro Beast" 205 46 11.5 "B" two_teams).2.
Proof.
  assert (car_names_unique two_teams) as H.
  { unfold car_names_unique. cbn. repeat constructor; set_solver. }
  split; [exact H|].
  exact (proj2 (add_car_keeps_invariants
                  9 "Nitro Beast" 205 46 11.5 "B" two_teams) H).
Defined.

(** ** Teams, cars and races together *)

Lemma race_team_names new_id now distance fee db tid :
  Team.TEAM_NAME <$> TEAMS (start_race new_id now distance fee db).2 !! tid
  = Team.TEAM_NAME <$> TEAMS db !! tid.
Proof.
  destruct (start_race_cases new_id now distance fee db)
    as [[_ ->]|[_ [rid ->]]]; cbn [snd]; [done|].
  unfold committed_state. cbn [TEAMS].
  by rewrite credit_teams_names, deduct_teams_names.
Qed.

Lemma race_cars new_id now distance fee db :
  CARS (start_race new_id now distance fee db).2 = CARS db.
Proof.
  by destruct (start_race_cases new_id now distance fee db)
    as [[_ ->]|[_ [rid ->]]].
Qed.

(** X15. A race, whether it runs or aborts, keeps team names unique, car
    names unique and every car bound to an existing team. *)
Theorem race_keeps_invariants new_id now distance fee db :
  let db' := (start_race new_id now distance fee db).2 in
  (team_names_unique db → team_names_unique db')
  ∧ (car_names_unique db → car_names_unique db')
  ∧ (cars_have_teams db → cars_have_teams db').
Proof.
  cbv zeta.
  assert (∀ k t', TEAMS (start_race new_id now distance fee db).2 !! k
                  = Some t'
                  → ∃ t, TEAMS db !! k = Some t
                         ∧ Team.TEAM_NAME t = Team.TEAM_NAME t') as Hback.
  { intros k t' Hk. pose proof (race_team_names new_id now distance fee db k)
      as Hn. rewrite Hk in Hn. destruct (TEAMS db !! k) as [t|]; [|done].
    exists t. split; [done|]. by injection Hn. }
  split; [|split].
  - intros Huniq k1 k2 t1 t2 H1 H2 Hname.
    destruct (Hback k1 t1 H1) as (u1 & Hu1 & Hn1).
    destruct (Hback k2 t2 H2) as (u2 & Hu2 & Hn2).
    apply (Huniq k1 k2 u1 u2 Hu1 Hu2). congruence.
  - unfold car_names_unique. by rewrite race_cars.
  - intros Hcars c Hc. rewrite race_cars in Hc.
    destruct (Hcars c Hc) as [t Ht].
    pose proof (race_team_names new_id now distance fee db (Car.TEAM_ID c))
      as Hn. rewrite Ht in Hn.
    destruct (TEAMS (start_race new_id now distance fee db).2
                !! Car.TEAM_ID c); [eauto|done].
Qed.

Lemma race_keeps_invariants_witness :
  cars_have_teams two_teams
  ∧ cars_have_teams (start_race 7 100 1000 400 two_teams).2.
Proof.
  assert (cars_have_teams two_teams) as H.
  { intros c Hc. unfold two_teams in Hc. cbn [CARS] in Hc.
    apply elem_of_cons in Hc. destruct Hc as [->|Hc]; [by eexists|].
    apply list_elem_of_singleton in Hc. subst c. by eexists. }
  split; [exact H|].
  exact (proj2 (proj2 (race_keeps_invariants 7 100 1000 400 two_teams)) H).
Defined.



(** * Set-up *)

(** ** [is_snowflake_setup_needed] *)

Lemma required_rows_NoDup :
  NoDup (Table.mk "RALLY" <$> required_tables).
Proof. apply (bool_decide_unpack _). vm_compute. exact I. Qed.

Lemma elem_of_required_filter (tables : list Table.t) r :
  r ∈ filter (λ r, Table.TABLE_SCHEMA r = "RALLY"%string
                   ∧ Table.TABLE_NAME r ∈ required_tables) tables
  ↔ r ∈ tables ∧ r ∈ Table.mk "RALLY" <$> required_tables.
Proof.
  rewrite list_elem_of_filter, list_elem_of_fmap. split.
  - intros [[Hs Hn] Hr]. split; [done|]. exists (Table.TABLE_NAME r).
    split; [|done]. destruct r as [s n]. cbn in *. by subst.
  - intros [Hr (n & -> & Hn)]. done.
Qed.

(** X17. With a catalogue that lists no table twice, set-up is reported as
    not needed exactly when all five tables TEAMS, CARS, RACE_EVENTS,
    RACE_ENTRIES and RACE_RESULTS exist in schema RALLY; a failing
    connection or query always reports that set-up is needed. *)
Theorem setup_not_needed_iff_all_tables_exist (tables : list Table.t) :
  NoDup tables →
  (is_snowflake_setup_needed (Some tables) = false
   ↔ ∀ name, name ∈ required_tables → Table.mk "RALLY" name ∈ tables)
  ∧ is_snowflake_setup_needed None = true.
Proof.
  intros Hnd. split; [|done].
  unfold is_snowflake_setup_needed, count_required.
  set (found := filter _ tables).
  assert (NoDup found) as Hfound by (by apply NoDup_filter).
  assert (found ⊆+ Table.mk "RALLY" <$> required_tables) as Hsub.
  { apply NoDup_submseteq; [done|]. intros r Hr.
    by apply elem_of_required_filter in Hr as [_ ?]. }
  rewrite bool_decide_eq_false. split.
  - intros Hge name Hname.
    assert (found ≡ₚ Table.mk "RALLY" <$> required_tables) as Hperm.
    { apply submseteq_length_Permutation; [done|].
      rewrite length_fmap. cbn [length required_tables]. lia. }
    assert (Table.mk "RALLY" name ∈ found) as Hin.
    { rewrite Hperm. by apply list_elem_of_fmap_2. }
    by apply elem_of_required_filter in Hin as [? _].
  - intros Hall.
    assert ((Table.mk "RALLY" <$> required_tables) ⊆+ found) as Hsup.
    { apply NoDup_submseteq; [apply required_rows_NoDup|]. intros r Hr.
      apply elem_of_required_filter. split; [|done].
      apply list_elem_of_fmap in Hr. destruct Hr as (n & -> & Hn).
      by apply Hall. }
    apply submseteq_length in Hsup. rewrite length_fmap in Hsup.
    cbn [length required_tables] in Hsup. lia.
Qed.

Lemma setup_not_needed_iff_all_tables_exist_witness :
  let tables := [Table.mk "RALLY" "TEAMS"; Table.mk "RALLY" "CARS";
                 Table.mk "PUBLIC" "RACE_EVENTS";
                 Table.mk "RALLY" "RACE_ENTRIES";
                 Table.mk "RALLY" "RACE_RESULTS"] in
  NoDup tables
  ∧ is_snowflake_setup_needed (Some tables) = true
  ∧ ¬ ∀ name, name ∈ required_tables → Table.mk "RALLY" name ∈ tables.
Proof.
  cbv zeta.
  assert (NoDup [Table.mk "RALLY" "TEAMS"; Table.mk "RALLY" "CARS";
                 Table.mk "PUBLIC" "RACE_EVENTS";
                 Table.mk "RALLY" "RACE_ENTRIES";
                 Table.mk "RALLY" "RACE_RESULTS"]) as Hnd.
  { apply (bool_decide_unpack _). vm_compute. exact I. }
  split; [exact Hnd|]. split; [vm_compute; reflexivity|].
  intros Hall.
  apply (setup_not_needed_iff_all_tables_exist _ Hnd) in Hall.
  vm_compute in Hall. discriminate.
Defined.

(** ** [setup_snowflake] *)

Lemma split_cons_not_nil sep s : split sep s ≠ [].
Proof.
  destruct s as [|c s]; cbn; [done|].
  case_decide; [done|]. by destruct (split sep s).
Qed.

Lemma split_no_sep sep s : Forall (λ piece, sep ∉ piece) (split sep s).
Proof.
  induction s as [|c s IH]; cbn.
  - constructor; [apply not_elem_of_nil|constructor].
  - case_decide.
    + constructor; [apply not_elem_of_nil|done].
    + destruct (split sep s) as [|piece pieces].
      * constructor; [|constructor]. rewrite list_elem_of_singleton. congruence.
      * inversion IH as [|? ? Hp Hps]; subst. constructor; [|done].
        rewrite not_elem_of_cons. split; [congruence|done].
Qed.

Lemma join_cons sep piece pieces :
  pieces ≠ [] → join sep (piece :: pieces) = piece ++ sep :: join sep pieces.
Proof. by destruct pieces. Qed.

Lemma join_split sep s : join sep (split sep s) = s.
Proof.
  induction s as [|c s IH]; [done|]. cbn [split].
  pose proof (split_cons_not_nil sep s) as Hne.
  destruct (split sep s) as [|piece pieces]; [done|].
  case_decide.
  - subst c. rewrite join_cons by done. by rewrite IH.
  - destruct pieces as [|p ps].
    + cbn [join] in *. by rewrite IH.
    + rewrite join_cons in IH by done. rewrite join_cons by done.
      by rewrite <- IH.
Qed.

Lemma lstrip_nil_iff s :
  lstrip s = [] ↔ Forall (λ c, isspace c = true) s.
Proof.
  induction s as [|c s IH]; cbn [lstrip]; [by split; [constructor|]|].
  destruct (isspace c) eqn:Ec.
  - rewrite IH. split; [by constructor|by inversion 1].
  - split; [done|]. inversion 1; congruence.
Qed.

Lemma lstrip_spaces_or_head s :
  Forall (λ c, isspace c = true) s
  ∨ ∃ c rest, lstrip s = c :: rest ∧ isspace c = false.
Proof.
  induction s as [|c s IH]; [left; constructor|]. cbn [lstrip].
  destruct (isspace c) eqn:Ec.
  - destruct IH as [IH|IH]; [left; by constructor|by right].
  - right. by exists c, s.
Qed.

Lemma strip_nil_iff s :
  strip s = [] ↔ Forall (λ c, isspace c = true) s.
Proof.
  unfold strip, rstrip. split.
  - intros H. apply (f_equal reverse) in H.
    rewrite reverse_involutive, reverse_nil in H.
    apply lstrip_nil_iff in H. rewrite Forall_reverse in H.
    destruct (lstrip_spaces_or_head s) as [Hs|(c & rest & Hl & Hc)]; [done|].
    rewrite Hl in H. apply Forall_cons in H. destruct H as [Hc' _].
    cbn beta in Hc'. congruence.
  - intros H. apply lstrip_nil_iff in H. rewrite H, reverse_nil. done.
Qed.

Lemma strip_truthy_iff s :
  strip s ≠ [] ↔ ∃ c, c ∈ s ∧ isspace c = false.
Proof.
  rewrite strip_nil_iff. split.
  - intros Hno. apply not_Forall_Exists in Hno; [|intros x; apply _].
    apply Exists_exists in Hno. destruct Hno as (c & Hc & Hsp).
    exists c. split; [done|]. cbn in Hsp. by destruct (isspace c).
  - intros (c & Hc & Hsp) Hall. rewrite Forall_forall in Hall.
    specialize (Hall c Hc). congruence.
Qed.

(** X18. No statement passed to [cursor.execute] contains a semicolon, and
    none is empty or made of white space only: a semicolon inside a
    string literal or a comment of the set-up file cuts the statement in
    two. *)
Theorem setup_statements_have_no_semicolon file_text :
  Forall (λ command,
            (semicolon ∉ command)
            ∧ (∃ c, c ∈ command ∧ isspace c = false))
         (setup_snowflake file_text).
Proof.
  unfold setup_snowflake. apply Forall_forall. intros command Hc.
  apply list_elem_of_filter in Hc. destruct Hc as [Hstrip Hin]. split.
  - pose proof (split_no_sep semicolon file_text) as H.
    rewrite Forall_forall in H. by apply H.
  - by apply strip_truthy_iff.
Qed.

(** X19. Only blank pieces are skipped: the pieces the file is cut into,
    joined by semicolons, are the file again, and a piece is executed
    exactly when it has a character that is not white space. *)
Theorem setup_skips_only_blank_pieces file_text :
  join semicolon (split semicolon file_text) = file_text
  ∧ ∀ piece,
      piece ∈ setup_snowflake file_text
      ↔ piece ∈ split semicolon file_text
        ∧ ∃ c, c ∈ piece ∧ isspace c = false.
Proof.
  split; [apply join_split|]. intros piece. unfold setup_snowflake.
  rewrite list_elem_of_filter, strip_truthy_iff. tauto.
Qed.

(** The text [" a;;b ; "], cut, and what is executed of it. *)
Example setup_snowflake_sample :
  split semicolon [32; 97; 59; 59; 98; 32; 59; 32]%N
  = [[32; 97]; []; [98; 32]; [32]]%N
  ∧ setup_snowflake [32; 97; 59; 59; 98; 32; 59; 32]%N
    = [[32; 97]; [98; 32]]%N
  ∧ strip [32; 97; 9; 98; 10]%N = [97; 9; 98]%N.
Proof. repeat split; vm_compute; reflexivity. Qed.

(** * The race page *)

(** ** Counting with [filter] *)

Lemma filter_length_ext {A} (P Q : A → Prop)
    `{∀ x, Decision (P x)} `{∀ x, Decision (Q x)} (l : list A) :
  (∀ x, x ∈ l → P x ↔ Q x) → length (filter P l) = length (filter Q l).
Proof.
  induction l as [|x l IH]; intros Hext; [done|].
  assert (P x ↔ Q x) as Hx by (apply Hext, list_elem_of_here).
  assert (length (filter P l) = length (filter Q l)) as Hl.
  { apply IH. intros y Hy. by apply Hext, list_elem_of_further. }
  destruct (decide (P x)) as [Hp|Hp].
  - rewrite !filter_cons_True by tauto. cbn. by rewrite Hl.
  - rewrite !filter_cons_False by tauto. done.
Qed.

Lemma filter_length_all {A} (P : A → Prop) `{∀ x, Decision (P x)}
    (l : list A) :
  Forall P l → length (filter P l) = length l.
Proof.
  induction 1 as [|x l Hx _ IH]; [done|].
  rewrite filter_cons_True by done. cbn. by rewrite IH.
Qed.

Lemma filter_length_none {A} (P : A → Prop) `{∀ x, Decision (P x)}
    (l : list A) :
  Forall (λ x, ¬ P x) l → length (filter P l) = 0%nat.
Proof.
  induction 1 as [|x l Hx _ IH]; [done|]. by rewrite filter_cons_False.
Qed.

Lemma filter_length_fmap {A B} (f : A → B) (P : B → Prop)
    `{∀ y, Decision (P y)} (l : list A) :
  length (filter P (f <$> l)) = length (filter (λ x, P (f x)) l).
Proof.
  induction l as [|x l IH]; [done|]. rewrite fmap_cons.
  destruct (decide (P (f x))) as [Hp|Hp].
  - rewrite !filter_cons_True by done. cbn. by rewrite IH.
  - rewrite !filter_cons_False by done. done.
Qed.

Lemma filter_bind_length_ge {A B} (P : A → Prop) (Q : B → Prop)
    `{∀ x, Decision (P x)} `{∀ y, Decision (Q y)}
    (f : A → list B) (l : list A) :
  (∀ x, x ∈ l → P x → ∃ y, y ∈ f x ∧ Q y) →
  (length (filter P l) ≤ length (filter Q (l ≫= f)))%nat.
Proof.
  induction l as [|x l IH]; intros Hex; [done|].
  rewrite bind_cons, filter_app, length_app.
  assert (length (filter P l) ≤ length (filter Q (l ≫= f)))%nat as Hl.
  { apply IH. intros y Hy. by apply Hex, list_elem_of_further. }
  destruct (decide (P x)) as [Hp|Hp].
  - rewrite filter_cons_True by done. cbn [length].
    destruct (Hex x (list_elem_of_here _ _) Hp) as (y & Hy & Hq).
    assert (y ∈ filter Q (f x)) as Hin by (by apply list_elem_of_filter).
    destruct (filter Q (f x)); [by apply elem_of_nil in Hin|]. cbn. lia.
  - rewrite filter_cons_False by done. lia.
Qed.

Lemma filter_prefix_length {A} (P : A → Prop) `{∀ x, Decision (P x)}
    (l : list A) k :
  (k ≤ length l)%nat → Forall P (take k l) →
  (k ≤ length (filter P l))%nat.
Proof.
  intros Hk Hall. rewrite <- (take_drop k l), filter_app, length_app.
  rewrite filter_length_all by done. rewrite length_take_le by done. lia.
Qed.

(** ** The first places of a "min" ranking *)

(** In a sorted list each of the first [k] values has fewer than [k]
    values strictly below it. *)
Lemma sorted_prefix_low_ranks (s : list Q) k :
  StronglySorted Qle s → (k ≤ length s)%nat →
  Forall (λ x, (count_lt x s < k)%nat) (take k s).
Proof.
  intros Hs Hk. apply Forall_forall. intros x Hx.
  rewrite <- (take_drop k s) in Hs.
  assert (count_lt x s = (count_lt x (take k s) + count_lt x (drop k s))%nat)
    as ->.
  { unfold count_lt. rewrite <- (take_drop k s) at 1.
    by rewrite filter_app, length_app. }
  rewrite (count_lt_zero x (drop k s)).
  - pose proof (count_lt_lt_length x (take k s) Hx) as Hlt.
    rewrite length_take_le in Hlt by done. lia.
  - apply Forall_forall. intros y Hy.
    by apply (StronglySorted_app_1_elem_of _ _ _ _ _ Hs).
Qed.

(** Among [n] values at least [k] have fewer than [k] values strictly
    below them, for every [k] up to [n]. *)
Lemma low_ranks_count (xs : list Q) k :
  (k ≤ length xs)%nat →
  (k ≤ length (filter (λ x, (count_lt x xs < k)%nat) xs))%nat.
Proof.
  intros Hk. set (s := merge_sort Qle xs).
  assert (s ≡ₚ xs) as Hperm by apply merge_sort_Permutation.
  assert (StronglySorted Qle s) as Hs.
  { apply Sorted_StronglySorted; [apply _|]. apply Sorted_merge_sort, _. }
  assert (length s = length xs) as Hlen by (by rewrite Hperm).
  rewrite (filter_length_ext _ (λ x, (count_lt x s < k)%nat)).
  2: { intros x _. by rewrite (count_lt_perm x s xs Hperm). }
  set (low := λ x : Q, (count_lt x s < k)%nat).
  assert (length (filter low xs) = length (filter low s)) as ->
    by (by rewrite Hperm).
  apply filter_prefix_length; [lia|].
  apply sorted_prefix_low_ranks; [done|lia].
Qed.

Lemma results_positions_range es r :
  r ∈ results_df es →
  (1 ≤ Result.POSITION r ≤ Z.of_nat (length es))%Z.
Proof.
  intros Hr. apply elem_of_results_df in Hr. destruct Hr as (e & He & ->).
  cbn [result_of Result.POSITION].
  pose proof (count_lt_lt_length (Entry.TIME_TAKEN e)
                (Entry.TIME_TAKEN <$> es)
                (list_elem_of_fmap_2 _ _ _ He)) as Hlt.
  rewrite length_fmap in Hlt. lia.
Qed.

Lemma results_low_positions es k :
  (k ≤ length es)%nat →
  (k ≤ length (filter (λ r, (Result.POSITION r ≤ Z.of_nat k)%Z)
                      (results_df es)))%nat.
Proof.
  intros Hk. rewrite results_df_rows, filter_length_fmap.
  pose proof (low_ranks_count (Entry.TIME_TAKEN <$> es) k) as Hlow.
  rewrite length_fmap, filter_length_fmap in Hlow.
  specialize (Hlow Hk).
  erewrite filter_length_ext; [exact Hlow|].
  intros e _. cbn [result_of Result.POSITION]. lia.
Qed.

(** ** The rows of the page's query *)

Lemma elem_of_details_of_result race_id db r d :
  d ∈ details_of_result race_id db r ↔
  ∃ e t c,
    e ∈ RACE_ENTRIES db ∧ TEAMS db !! Result.TEAM_ID r = Some t ∧ c ∈ CARS db
    ∧ Result.RACE_ID r = Entry.RACE_ID e ∧ Result.CAR_ID r = Entry.CAR_ID e
    ∧ Result.CAR_ID r = Car.CAR_ID c ∧ Result.RACE_ID r = race_id
    ∧ d = Detail.mk (Team.TEAM_NAME t) (Car.CAR_NAME c) (Entry.TIME_TAKEN e)
                    (Result.POSITION r).
Proof.
  unfold details_of_result. rewrite list_elem_of_bind. split.
  - intros (e & Hd & He). apply list_elem_of_bind in Hd.
    destruct Hd as (t & Hd & Ht). apply list_elem_of_bind in Hd.
    destruct Hd as (c & Hd & Hc).
    destruct (TEAMS db !! Result.TEAM_ID r) as [t'|] eqn:Et;
      [|by apply elem_of_nil in Ht].
    apply list_elem_of_singleton in Ht. subst t'.
    case_decide as Hcond; [|by apply elem_of_nil in Hd].
    apply list_elem_of_singleton in Hd.
    destruct Hcond as (? & ? & ? & ?). exists e, t, c. done.
  - intros (e & t & c & He & Et & Hc & H1 & H2 & H3 & H4 & ->).
    exists e. split; [|done]. apply list_elem_of_bind. exists t.
    split; [|rewrite Et; apply list_elem_of_here].
    apply list_elem_of_bind. exists c. split; [|done].
    rewrite decide_True by done. apply list_elem_of_here.
Qed.

Lemma sorted_place_bound (L : list Detail.t) i d :
  StronglySorted by_position L →
  (S i ≤ length (filter (λ x, (Detail.POSITION x ≤ Z.of_nat (S i))%Z) L))%nat →
  L !! i = Some d →
  (Detail.POSITION d ≤ Z.of_nat (S i))%Z.
Proof.
  intros Hs Hcount Hd.
  destruct (decide (Detail.POSITION d ≤ Z.of_nat (S i))%Z) as [|Hgt]; [done|].
  exfalso. rewrite <- (take_drop_middle L i d Hd) in Hs, Hcount.
  rewrite filter_app, length_app in Hcount.
  rewrite (filter_length_none _ (d :: drop (S i) L)) in Hcount.
  - pose proof (length_filter
                  (λ x, (Detail.POSITION x ≤ Z.of_nat (S i))%Z) (take i L))
      as H1.
    pose proof (length_take L i) as H2. lia.
  - apply StronglySorted_app_1_r, StronglySorted_cons in Hs.
    destruct Hs as [Hall _]. constructor; [done|].
    eapply Forall_impl; [exact Hall|]. intros y Hy. unfold by_position in Hy.
    cbn beta. lia.
Qed.

Section RacePage.
Context (new_id now race_id : Z) (distance fee : Q) (db : DB).

Let db' := committed_state new_id now race_id distance fee db.
Let es := entries_df race_id distance fee (select_eligible fee db).
Let rs := results_df es.

Lemma new_result_has_detail r :
  r ∈ rs →
  ∃ d, d ∈ details_of_result race_id db' r
       ∧ Detail.POSITION d = Result.POSITION r.
Proof.
  intros Hr. apply elem_of_results_df in Hr. destruct Hr as (e & He & ->).
  pose proof He as He'. apply elem_of_entries_df in He'.
  destruct He' as (row & Hrow & Ee).
  apply elem_of_select_eligible in Hrow.
  destruct Hrow as (c & t & Hc & Et & _ & Erow).
  assert (is_Some (TEAMS db' !! Car.TEAM_ID c)) as [t' Et'].
  { pose proof (credit_teams_names rs
                  (deduct_teams fee
                     (unique (Row.TEAM_ID <$> select_eligible fee db))
                     (TEAMS db)) (Car.TEAM_ID c)) as Hn.
    rewrite deduct_teams_names, Et in Hn.
    unfold db', committed_state. cbn [TEAMS]. fold es. fold rs.
    destruct (credit_teams rs _ !! Car.TEAM_ID c); [eauto|done]. }
  exists (Detail.mk (Team.TEAM_NAME t') (Car.CAR_NAME c)
                  (Entry.TIME_TAKEN e)
                  (Result.POSITION (result_of es e))).
split; [|reflexivity].
assert (Entry.RACE_ID e = race_id ∧ Entry.CAR_ID e = Car.CAR_ID c
        ∧ Entry.TEAM_ID e = Car.TEAM_ID c) as (Hid & Hcar & Hteam)
  by (by rewrite Ee, Erow).
apply elem_of_details_of_result. exists e, t', c.
cbn [result_of Result.TEAM_ID Result.RACE_ID Result.CAR_ID Result.POSITION].
rewrite Hteam. split; [|done].
unfold db', committed_state. cbn [RACE_ENTRIES]. apply elem_of_app. by right.
Qed.

Lemma detail_is_of_new_result d :
  (∀ r, r ∈ RACE_RESULTS db → Result.RACE_ID r ≠ race_id) →
  d ∈ join_race_details race_id db' →
  ∃ r e t c,
    r ∈ rs ∧ e ∈ RACE_ENTRIES db' ∧ TEAMS db' !! Result.TEAM_ID r = Some t
    ∧ c ∈ CARS db ∧ Result.CAR_ID r = Car.CAR_ID c
    ∧ d = Detail.mk (Team.TEAM_NAME t) (Car.CAR_NAME c)
                    (Entry.TIME_TAKEN e) (Result.POSITION r).
Proof.
  intros Hfresh Hd. unfold join_race_details in Hd.
  apply list_elem_of_bind in Hd. destruct Hd as (r & Hd & Hr).
  apply elem_of_details_of_result in Hd.
  destruct Hd as (e & t & c & He & Et & Hc & _ & _ & Hcar & Hid & ->).
  exists r, e, t, c. split; [|done].
  unfold db', committed_state in Hr. cbn [RACE_RESULTS] in Hr.
  apply elem_of_app in Hr. destruct Hr as [Hr|Hr]; [|done].
  by destruct (Hfresh r Hr).
Qed.

Lemma race_details_low_places k :
  (∀ r, r ∈ RACE_RESULTS db → Result.RACE_ID r ≠ race_id) →
  (k ≤ length (join_race_details race_id db'))%nat →
  (k ≤ length (filter (λ d, (Detail.POSITION d ≤ Z.of_nat k)%Z)
                      (join_race_details race_id db')))%nat.
Proof.
  intros Hfresh Hk.
  destruct (decide (k ≤ length es)%nat) as [Hle|Hgt].
  - pose proof (results_low_positions es k Hle) as Hlow. fold rs in Hlow.
    assert (RACE_RESULTS db' = RACE_RESULTS db ++ rs) as Hres by reflexivity.
    unfold join_race_details. rewrite Hres.
    rewrite bind_app, filter_app, length_app.
    assert (length (filter (λ r, (Result.POSITION r ≤ Z.of_nat k)%Z) rs)
          ≤ length (filter (λ d, (Detail.POSITION d ≤ Z.of_nat k)%Z)
                           (rs ≫= details_of_result race_id db')))%nat
      as Hbind.
    { apply filter_bind_length_ge. intros r Hr Hp.
      destruct (new_result_has_detail r Hr) as (d & Hd & Hpos).
      exists d. split; [done|]. cbn beta. by rewrite Hpos. }
    eapply Nat.le_trans; [exact Hlow|].
    eapply Nat.le_trans; [exact Hbind|]. apply Nat.le_add_l.
  - rewrite filter_length_all; [done|].
    apply Forall_forall. intros d Hd.
    destruct (detail_is_of_new_result d Hfresh Hd)
      as (r & e & t & c & Hr & _ & _ & _ & _ & ->).
    cbn [Detail.POSITION].
    pose proof (results_positions_range es r Hr). lia.
Qed.

Lemma race_details_places i d :
  (∀ r, r ∈ RACE_RESULTS db → Result.RACE_ID r ≠ race_id) →
  select_race_details race_id db' !! i = Some d →
  (1 ≤ Detail.POSITION d ≤ Z.of_nat (S i))%Z.
Proof.
  intros Hfresh Hd. unfold select_race_details in *.
  set (raw := join_race_details race_id db') in *.
  assert (merge_sort by_position raw ≡ₚ raw) as Hperm
    by apply merge_sort_Permutation.
  split.
  - assert (d ∈ raw) as Hin.
    { rewrite <- Hperm. by eapply list_elem_of_lookup_2. }
    destruct (detail_is_of_new_result d Hfresh Hin)
      as (r & e & t & c & Hr & _ & _ & _ & _ & ->).
    cbn [Detail.POSITION].
    pose proof (results_positions_range es r Hr). lia.
  - apply (sorted_place_bound (merge_sort by_position raw) i d);
      [| |done].
    + apply Sorted_StronglySorted; [apply _|]. apply Sorted_merge_sort, _.
    + apply lookup_lt_Some in Hd.
      assert (length (merge_sort by_position raw) = length raw) as Hlen
        by (by rewrite Hperm).
      set (low := λ x : Detail.t, (Detail.POSITION x ≤ Z.of_nat (S i))%Z).
      assert (length (filter low (merge_sort by_position raw))
              = length (filter low raw)) as -> by (by rewrite Hperm).
      apply race_details_low_places; [done|]. fold raw. lia.
Qed.

Lemma race_details_nonempty :
  select_eligible fee db ≠ [] → select_race_details race_id db' ≠ [].
Proof.
  intros Hdf Hnil.
  assert (∃ r, r ∈ rs) as [r Hr].
  { unfold rs. rewrite results_df_rows. unfold es, entries_df.
    destruct (select_eligible fee db) as [|row df]; [done|].
    eexists. apply list_elem_of_here. }
  destruct (new_result_has_detail r Hr) as (d & Hd & _).
  assert (d ∈ select_race_details race_id db') as Hin.
  { unfold select_race_details. rewrite merge_sort_Permutation.
    unfold join_race_details. apply list_elem_of_bind. exists r.
    split; [done|]. unfold db', committed_state. cbn [RACE_RESULTS].
    apply elem_of_app. by right. }
  rewrite Hnil in Hin. by apply elem_of_nil in Hin.
Qed.
End RacePage.

Lemma medals_lookup pos :
  (1 ≤ pos ≤ 3)%Z → is_Some (medals !! pos).
Proof.
  intros Hpos.
  assert (pos = 1 ∨ pos = 2 ∨ pos = 3)%Z as Hcases by lia.
  destruct Hcases as [-> | [-> | ->]]; by eexists.
Qed.

Lemma start_rally_eq new_id now distance fee db :
  start_rally new_id now distance fee db
  = (RaceCompleted ::
     match (start_race new_id now distance fee db).1 with
     | Some race_id =>
         if decide (race_id = 0%Z) then []
         else visualize race_id (start_race new_id now distance fee db).2
     | None => []
     end,
     (start_race new_id now distance fee db).2).
Proof.
  unfold start_rally. by destruct (start_race new_id now distance fee db).
Qed.

(** X20. When no car is eligible [start_race] returns no id, and the
    page still shows the box "Race completed successfully", with no
    visualisation after it. *)
Theorem rally_page_reports_success_on_abort new_id now distance fee db :
  (∀ c, c ∈ CARS db → ¬ eligible fee db c) →
  (start_race new_id now distance fee db).1 = None
  ∧ (start_rally new_id now distance fee db).1 = [RaceCompleted].
Proof.
  intros Hnone. rewrite start_rally_eq.
  destruct (start_race_cases new_id now distance fee db)
    as [[_ ->]|[Hdf _]]; [done|].
  apply some_car_eligible_iff in Hdf. destruct Hdf as (c & Hc & He).
  by destruct (Hnone c Hc).
Qed.

Lemma rally_page_reports_success_on_abort_witness :
  (∀ c, c ∈ CARS two_teams → ¬ eligible 1600 two_teams c)
  ∧ (start_race 7 100 1000 1600 two_teams).1 = None
  ∧ (start_rally 7 100 1000 1600 two_teams).1 = [RaceCompleted].
Proof.
  assert (∀ c, c ∈ CARS two_teams → ¬ eligible 1600 two_teams c) as H.
  { apply no_row_no_eligible_car. vm_compute. reflexivity. }
  split; [exact H|].
  exact (rally_page_reports_success_on_abort 7 100 1000 1600 two_teams H).
Defined.

(** X21. After a race that ran under an id no earlier result carries, every
    line of the podium shows a medal, and the winner line names the team
    and the car of a result of this race at position 1. *)
Theorem podium_has_medals_and_winner_is_first
    new_id now distance fee db race_id db' :
  start_race new_id now distance fee db = (Some race_id, db') →
  race_id ≠ 0%Z →
  (∀ r, r ∈ RACE_RESULTS db → Result.RACE_ID r ≠ race_id) →
  let page := (start_rally new_id now distance fee db).1 in
  (∀ m team_name car_name minutes,
     PodiumLine m team_name car_name minutes ∈ page → is_Some m)
  ∧ ∃ r t c,
      r ∈ RACE_RESULTS db' ∧ Result.RACE_ID r = race_id
      ∧ Result.POSITION r = 1%Z
      ∧ TEAMS db' !! Result.TEAM_ID r = Some t
      ∧ c ∈ CARS db' ∧ Car.CAR_ID c = Result.CAR_ID r
      ∧ WinnerLine (Team.TEAM_NAME t) (Car.CAR_NAME c) ∈ page.
Proof.
  intros Hrun Hid Hfresh. cbv zeta. rewrite start_rally_eq, Hrun.
  cbn [fst snd]. rewrite decide_False by done.
  apply start_race_Some_inv in Hrun. destruct Hrun as (Hdf & _ & ->).
  unfold visualize.
  pose proof (race_details_nonempty new_id now race_id distance fee db Hdf)
    as Hne.
  pose proof (race_details_places new_id now race_id distance fee db)
    as Hplaces.
  set (db' := committed_state new_id now race_id distance fee db) in *.
  destruct (select_race_details race_id db') as [|first rest] eqn:EL; [done|].
  split.
  - intros m team_name car_name minutes Hin.
    repeat (apply elem_of_cons in Hin; destruct Hin as [Hin|Hin]; [done|]).
    apply elem_of_app in Hin. destruct Hin as [Hin|Hin].
    + unfold podium_lines in Hin. apply list_elem_of_fmap in Hin.
      destruct Hin as (d & [= -> _ _ _] & Hd).
      apply elem_of_take in Hd. destruct Hd as (i & Hd & Hi).
      specialize (Hplaces i d Hfresh Hd). apply medals_lookup. lia.
    + repeat (apply elem_of_cons in Hin; destruct Hin as [Hin|Hin]; [done|]).
      by apply elem_of_nil in Hin.
  - assert (Detail.POSITION first = 1%Z) as Hfirst.
    { specialize (Hplaces 0%nat first Hfresh eq_refl). lia. }
    assert (first ∈ join_race_details race_id db') as Hraw.
    { rewrite <- (merge_sort_Permutation by_position).
      fold (select_race_details race_id db'). rewrite EL.
      apply list_elem_of_here. }
    destruct (detail_is_of_new_result new_id now race_id distance fee db
                first Hfresh Hraw)
      as (r & e & t & c & Hr & _ & Et & Hc & Hcar & Efirst).
    exists r, t, c.
    split; [unfold db', committed_state; cbn [RACE_RESULTS];
            apply elem_of_app; by right|].
    split.
    { apply elem_of_results_df in Hr. destruct Hr as (x & Hx & ->).
      apply elem_of_entries_df in Hx. by destruct Hx as (row & _ & ->). }
    split; [by rewrite Efirst in Hfirst|].
    split; [exact Et|]. split; [exact Hc|]. split; [done|].
    rewrite Efirst. cbn [Detail.TEAM_NAME Detail.CAR_NAME].
    do 3 apply list_elem_of_further. apply elem_of_app. right.
    apply list_elem_of_further, list_elem_of_here.
Qed.

Lemma podium_has_medals_and_winner_is_first_witness :
  let run := start_race 7 100 1000 100 tied_runners_up in
  let page := (start_rally 7 100 1000 100 tied_runners_up).1 in
  run = (Some 7%Z, run.2)
  ∧ 7%Z ≠ 0%Z
  ∧ (∀ r, r ∈ RACE_RESULTS tied_runners_up → Result.RACE_ID r ≠ 7%Z)
  ∧ (∀ m team_name car_name minutes,
       PodiumLine m team_name car_name minutes ∈ page → is_Some m)
  ∧ WinnerLine "A" "A1" ∈ page.
Proof.
  cbv zeta.
  assert (start_race 7 100 1000 100 tied_runners_up
          = (Some 7%Z, (start_race 7 100 1000 100 tied_runners_up).2)) as Hrun
    by (vm_compute; reflexivity).
  assert (7%Z ≠ 0%Z) as Hid by lia.
  assert (∀ r, r ∈ RACE_RESULTS tied_runners_up → Result.RACE_ID r ≠ 7%Z)
    as Hfresh by (intros r Hr; by apply elem_of_nil in Hr).
  split; [exact Hrun|]. split; [exact Hid|]. split; [exact Hfresh|].
  split.
  - exact (proj1 (podium_has_medals_and_winner_is_first
                    7 100 1000 100 tied_runners_up 7 _ Hrun Hid Hfresh)).
  - vm_compute. repeat constructor.
Defined.
